(** * Forward kinematics of one hexapod leg

    A shallow embedding of [hexapod/linkage.py] (class [Linkage]) and the
    properties of its public operations.

    Numbers.  Lengths, angles and coordinates are Python numbers (ints and
    floats); they are embedded as real numbers with exact arithmetic, so a
    comparison [p.z < q.z] is the order of the reals and rounding is not
    part of the model.

    Objects.  A [Point] is a mutable Python object that several names may
    reference at once: the entries of [all_points], [ground_contact_point]
    and [new_origin] are references.  The embedding keeps the points in a
    store (a list indexed by addresses) and the fields of the leg hold
    addresses, so that in-place updates are seen through every alias.

    Errors.  Methods are computations in a state-and-exception monad: they
    either return or raise, and the store and the leg keep the writes made
    before an exception. *)

From Stdlib Require Import Reals Lra String ZArith.
From stdpp Require Import base list strings gmap.
Open Scope R_scope.

(** ** Homogeneous transforms *)

Module Frame.

(** A row of four numbers, and a 4x4 array as its four rows: the shape
    of every [np.array] that [linkage.py] multiplies or applies. *)
Record vec := Vec { v0 : R; v1 : R; v2 : R; v3 : R }.
Record t := Rows { r0 : vec; r1 : vec; r2 : vec; r3 : vec }.

Definition dot (u v : vec) : R :=
  v0 u * v0 v + v1 u * v1 v + v2 u * v2 v + v3 u * v3 v.

Definition col0 (m : t) : vec := Vec (v0 (r0 m)) (v0 (r1 m)) (v0 (r2 m)) (v0 (r3 m)).
Definition col1 (m : t) : vec := Vec (v1 (r0 m)) (v1 (r1 m)) (v1 (r2 m)) (v1 (r3 m)).
Definition col2 (m : t) : vec := Vec (v2 (r0 m)) (v2 (r1 m)) (v2 (r2 m)) (v2 (r3 m)).
Definition col3 (m : t) : vec := Vec (v3 (r0 m)) (v3 (r1 m)) (v3 (r2 m)) (v3 (r3 m)).

Definition row_times (u : vec) (n : t) : vec :=
  Vec (dot u (col0 n)) (dot u (col1 n)) (dot u (col2 n)) (dot u (col3 n)).

(** [np.matmul] of two 4x4 arrays. *)
Definition matmul (m n : t) : t :=
  Rows (row_times (r0 m) n) (row_times (r1 m) n)
       (row_times (r2 m) n) (row_times (r3 m) n).

(** [np.matmul] of a 4x4 array and a vector of four. *)
Definition matvec (m : t) (p : vec) : vec :=
  Vec (dot (r0 m) p) (dot (r1 m) p) (dot (r2 m) p) (dot (r3 m) p).

Definition identity : t :=
  Rows (Vec 1 0 0 0) (Vec 0 1 0 0) (Vec 0 0 1 0) (Vec 0 0 0 1).

(** Cosine and sine of an angle given in degrees. *)
Definition cosd (theta : R) : R := cos (theta * PI / 180).
Definition sind (theta : R) : R := sin (theta * PI / 180).

(** Modelled from the spec: [frame_yrotate_xtranslate] of
    hexapod/points.py, which is not among the sources.  The spec's link
    transform: rotate about Y by [theta], then translate along X by [x].
    As [linkage.py] multiplies the results with [np.matmul], they are 4x4
    homogeneous matrices. *)
Definition frame_yrotate_xtranslate (theta x : R) : t :=
  Rows (Vec (cosd theta) 0 (sind theta) x)
       (Vec 0 1 0 0)
       (Vec (- sind theta) 0 (cosd theta) 0)
       (Vec 0 0 0 1).

(** Modelled from the spec: [frame_zrotate_xytranslate] of
    hexapod/points.py.  The spec's mount transform: rotate about Z by
    [theta], then translate in XY by [(x, y)]. *)
Definition frame_zrotate_xytranslate (theta x y : R) : t :=
  Rows (Vec (cosd theta) (- sind theta) 0 x)
       (Vec (sind theta) (cosd theta) 0 y)
       (Vec 0 0 1 0)
       (Vec 0 0 0 1).

End Frame.

(** ** Points *)

Module Point.

(** Modelled from the spec: class [Point] of hexapod/points.py, the
    spec's [(x, y, z, name)].  A name is a string or Python's [None]. *)
Record t := mk { x : R; y : R; z : R; name : option string }.

(** [Point(x, y, z)]: no name given. *)
Definition unnamed (x y z : R) : t := mk x y z None.

Definition homogeneous (self : t) : Frame.vec := Frame.Vec (x self) (y self) (z self) 1.

(** Modelled from the spec: [get_point_wrt(frame, name=None)], a new
    point with the frame's rotation and translation applied, which
    "preserves name unless explicitly renamed". *)
Definition get_point_wrt (self : t) (reference_frame : Frame.t)
    (new_name : option string) : t :=
  let p := Frame.matvec reference_frame (homogeneous self) in
  mk (Frame.v0 p) (Frame.v1 p) (Frame.v2 p)
     (match new_name with Some n => Some n | None => name self end).

(** Modelled from the spec: the value [update_point_wrt(frame, height)]
    leaves in the point it mutates: re-expressed through the frame, and
    offset by the height. *)
Definition update_point_wrt (self : t) (reference_frame : Frame.t) (height : R) : t :=
  let p := Frame.matvec reference_frame (homogeneous self) in
  mk (Frame.v0 p) (Frame.v1 p) (Frame.v2 p + height) (name self).

End Point.

(** ** The leg object *)

(** A reference to a [Point] object: its index in the store. *)
Abbreviation addr := nat.

Module Linkage.

(** The [__slots__] of the class.  The five slots that only
    [change_pose] assigns are unset ([None]) until it does. *)
Record t := mk {
  a : R;
  b : R;
  c : R;
  alpha : option R;
  beta : option R;
  gamma : option R;
  coxia_axis : R;
  new_origin : addr;
  name : option string;
  id : option Z;
  all_points : option (list addr);
  ground_contact_point : option addr
}.

Definition set_alpha (v : R) (l : t) : t :=
  mk (a l) (b l) (c l) (Some v) (beta l) (gamma l) (coxia_axis l)
     (new_origin l) (name l) (id l) (all_points l) (ground_contact_point l).
Definition set_beta (v : R) (l : t) : t :=
  mk (a l) (b l) (c l) (alpha l) (Some v) (gamma l) (coxia_axis l)
     (new_origin l) (name l) (id l) (all_points l) (ground_contact_point l).
Definition set_gamma (v : R) (l : t) : t :=
  mk (a l) (b l) (c l) (alpha l) (beta l) (Some v) (coxia_axis l)
     (new_origin l) (name l) (id l) (all_points l) (ground_contact_point l).
Definition set_new_origin (v : addr) (l : t) : t :=
  mk (a l) (b l) (c l) (alpha l) (beta l) (gamma l) (coxia_axis l)
     v (name l) (id l) (all_points l) (ground_contact_point l).
Definition set_all_points (v : list addr) (l : t) : t :=
  mk (a l) (b l) (c l) (alpha l) (beta l) (gamma l) (coxia_axis l)
     (new_origin l) (name l) (id l) (Some v) (ground_contact_point l).
Definition set_ground_contact_point (v : addr) (l : t) : t :=
  mk (a l) (b l) (c l) (alpha l) (beta l) (gamma l) (coxia_axis l)
     (new_origin l) (name l) (id l) (all_points l) (Some v).

End Linkage.

(** ** State and exceptions *)

(** The Python exceptions the methods can raise.  [Unmodelled] is not a
    Python exception: it marks a step outside the model (a reference to
    no object, or a point assigned to a slot that holds a number), which
    no state built by the public operations takes. *)
Inductive exn := TypeError | IndexError | AttributeError | Unmodelled.

Inductive outcome (A : Type) :=
  | Ok (v : A)
  | Raise (e : exn).
Arguments Ok {A} v.
Arguments Raise {A} e.

(** The store of [Point] objects and the leg [self]. *)
Record State := mkState { heap : list Point.t; self : Linkage.t }.

Definition M (A : Type) : Type := State -> outcome A * State.

Definition ret {A} (v : A) : M A := fun s => (Ok v, s).

Definition bind {A B} (m : M A) (k : A -> M B) : M B :=
  fun s => match m s with
           | (Ok v, s') => k v s'
           | (Raise e, s') => (Raise e, s')
           end.

Definition raise {A} (e : exn) : M A := fun s => (Raise e, s).

Declare Scope py_scope.
Delimit Scope py_scope with py.
Notation "x <- m ;; k" := (bind m (fun x => k))
  (at level 100, m at level 99, k at level 200, right associativity) : py_scope.
Notation "m ;; k" := (bind m (fun _ => k))
  (at level 100, k at level 200, right associativity) : py_scope.
Open Scope py_scope.

Definition get_self : M Linkage.t := fun s => (Ok (self s), s).

Definition modify_self (f : Linkage.t -> Linkage.t) : M unit :=
  fun s => (Ok tt, mkState (heap s) (f (self s))).

(** Reading a slot: [AttributeError] while it is unset. *)
Definition slot {A} (field : Linkage.t -> option A) : M A :=
  fun s => match field (self s) with
           | Some v => (Ok v, s)
           | None => (Raise AttributeError, s)
           end.

(** The object a reference points to. *)
Definition deref (p : addr) : M Point.t :=
  fun s => match heap s !! p with
           | Some v => (Ok v, s)
           | None => (Raise Unmodelled, s)
           end.

(** A new object, at the next free address. *)
Definition alloc (v : Point.t) : M addr :=
  fun s => (Ok (length (heap s)), mkState (heap s ++ [v]) (self s)).

(** In-place update of the object at [p]. *)
Definition store (p : addr) (v : Point.t) : M unit :=
  fun s => match heap s !! p with
           | Some _ => (Ok tt, mkState (<[p := v]> (heap s)) (self s))
           | None => (Raise Unmodelled, s)
           end.

(** [name + suffix] where [name] may be [None]: Python raises
    [TypeError] for [None + str]. *)
Definition str_add (name : option string) (suffix : string) : M string :=
  match name with
  | Some n => ret (n +:+ suffix)
  | None => raise TypeError
  end.

(** [deepcopy(point)]: a new object with the same fields. *)
Definition deepcopy (p : addr) : M addr :=
  v <- deref p ;; alloc v.

(** [point.name += suffix]. *)
Definition iadd_name (p : addr) (suffix : string) : M unit :=
  v <- deref p ;;
  n <- str_add (Point.name v) suffix ;;
  store p (Point.mk (Point.x v) (Point.y v) (Point.z v) (Some n)).

(** [point.update_point_wrt(frame, height)]: mutates the object. *)
Definition update_point_wrt (point : addr) (frame : Frame.t) (height : R) : M unit :=
  v <- deref point ;; store point (Point.update_point_wrt v frame height).

(** ** Methods of [Linkage] *)

Definition attr_map : gmap string nat :=
  {[ "p0" := 0%nat; "p1" := 1%nat; "p2" := 2%nat; "p3" := 3%nat ]}.

(** [__getattr__(item)].  Python calls it only after the normal lookup
    of [item] has failed, so in the second branch
    [super().__getattribute__(item)] fails again. *)
Definition __getattr__ (item : string) : M addr :=
  match attr_map !! item with
  | Some i =>
      ps <- slot Linkage.all_points ;;
      match ps !! i with
      | Some p => ret p
      | None => raise IndexError
      end
  | None => raise AttributeError
  end.

(** [super().__setattr__(key, value)] for a value that is a point: the
    slots [new_origin] and [ground_contact_point] hold points; a name
    that is no slot raises [AttributeError]. *)
Definition object_setattr (key : string) (value : addr) : M unit :=
  if decide (key = "new_origin") then
    modify_self (Linkage.set_new_origin value)
  else if decide (key = "ground_contact_point") then
    modify_self (Linkage.set_ground_contact_point value)
  else if decide (key ∈ ["a"; "b"; "c"; "alpha"; "beta"; "gamma";
                         "coxia_axis"; "name"; "id"; "all_points"]) then
    raise Unmodelled
  else raise AttributeError.

(** [__setattr__(key, value)], the assignment [leg.key = value], for a
    value that is a point. *)
Definition __setattr__ (key : string) (value : addr) : M unit :=
  match attr_map !! key with
  | Some i =>
      ps <- slot Linkage.all_points ;;
      match ps !! i with
      | Some _ => modify_self (Linkage.set_all_points (<[i := value]> ps))
      | None => raise IndexError
      end
  | None => object_setattr key value
  end.

Definition coxia_angle : M R := slot Linkage.alpha.
Definition coxia_point : M addr := __getattr__ "p1".
Definition femur_point : M addr := __getattr__ "p2".
Definition foot_tip : M addr := __getattr__ "p3".
Definition ground_contact : M addr := slot Linkage.ground_contact_point.

(** The loop of [compute_ground_contact] over the points still to scan. *)
Fixpoint scan_lowest (points : list addr) (ground_contact : addr) : M addr :=
  match points with
  | [] => ret ground_contact
  | point :: rest =>
      p <- deref point ;;
      g <- deref ground_contact ;;
      if Rlt_dec (Point.z p) (Point.z g)
      then scan_lowest rest point
      else scan_lowest rest ground_contact
  end.

Definition compute_ground_contact : M addr :=
  ground_contact <- __getattr__ "p3" ;;
  ps <- slot Linkage.all_points ;;
  scan_lowest (reverse ps) ground_contact.

(** The frames of [change_pose] and the points with respect to the body
    contact point (lines 129-144): temporaries that nothing else
    references, kept as values. *)
Definition frame_01 (a beta : R) : Frame.t :=
  Frame.frame_yrotate_xtranslate (- beta) a.
Definition frame_12 (b gamma : R) : Frame.t :=
  Frame.frame_yrotate_xtranslate (90 - gamma) b.
Definition frame_23 (c : R) : Frame.t :=
  Frame.frame_yrotate_xtranslate 0 c.
Definition frame_02 (a b beta gamma : R) : Frame.t :=
  Frame.matmul (frame_01 a beta) (frame_12 b gamma).
Definition frame_03 (a b c beta gamma : R) : Frame.t :=
  Frame.matmul (frame_02 a b beta gamma) (frame_23 c).

Definition change_pose (alpha beta gamma : R) : M unit :=
  modify_self (Linkage.set_alpha alpha) ;;
  modify_self (Linkage.set_beta beta) ;;
  modify_self (Linkage.set_gamma gamma) ;;
  l <- get_self ;;
  self_beta <- slot Linkage.beta ;;
  self_gamma <- slot Linkage.gamma ;;
  let f01 := frame_01 (Linkage.a l) self_beta in
  let f02 := frame_02 (Linkage.a l) (Linkage.b l) self_beta self_gamma in
  let f03 := frame_03 (Linkage.a l) (Linkage.b l) (Linkage.c l) self_beta self_gamma in
  self_alpha <- slot Linkage.alpha ;;
  origin <- deref (Linkage.new_origin l) ;;
  let new_frame :=
    Frame.frame_zrotate_xytranslate
      (Linkage.coxia_axis l + self_alpha) (Point.x origin) (Point.y origin) in
  let p0 := Point.unnamed 0 0 0 in
  let p1 := Point.get_point_wrt p0 f01 None in
  let p2 := Point.get_point_wrt p0 f02 None in
  let p3 := Point.get_point_wrt p0 f03 None in
  p0 <- deepcopy (Linkage.new_origin l) ;;
  iadd_name p0 "-body-contact" ;;
  n1 <- str_add (Linkage.name l) "-coxia" ;;
  p1 <- alloc (Point.get_point_wrt p1 new_frame (Some n1)) ;;
  n2 <- str_add (Linkage.name l) "-femur" ;;
  p2 <- alloc (Point.get_point_wrt p2 new_frame (Some n2)) ;;
  n3 <- str_add (Linkage.name l) "-tibia" ;;
  p3 <- alloc (Point.get_point_wrt p3 new_frame (Some n3)) ;;
  modify_self (Linkage.set_all_points [p0; p1; p2; p3]) ;;
  g <- compute_ground_contact ;;
  modify_self (Linkage.set_ground_contact_point g).

(** [for point in self.all_points: point.update_point_wrt(frame, height)] *)
Fixpoint update_each (points : list addr) (frame : Frame.t) (height : R) : M unit :=
  match points with
  | [] => ret tt
  | point :: rest =>
      update_point_wrt point frame height ;; update_each rest frame height
  end.

Definition update_leg_wrt (frame : Frame.t) (height : R) : M unit :=
  ps <- slot Linkage.all_points ;;
  update_each ps frame height.

(** [Linkage(a, b, c, alpha, beta, gamma, coxia_axis, new_origin, name,
    id_number)] in a store [h]: the new object and the store when
    [__init__] returns, or the exception it raises. *)
Definition __init__ (a b c alpha beta gamma coxia_axis : R) (new_origin : addr)
    (name : option string) (id_number : option Z) (h : list Point.t)
    : outcome unit * State :=
  change_pose alpha beta gamma
    (mkState h (Linkage.mk a b c None None None coxia_axis new_origin
                           name id_number None None)).


(** ** The spec's transforms, as maps on coordinates *)

Module Spec.

Definition coords : Type := R * R * R.

Definition local_origin : coords := (0, 0, 0).

Definition rotate_y (theta : R) (p : coords) : coords :=
  let '(x, y, z) := p in
  (Frame.cosd theta * x + Frame.sind theta * z, y,
   - Frame.sind theta * x + Frame.cosd theta * z).

Definition rotate_z (theta : R) (p : coords) : coords :=
  let '(x, y, z) := p in
  (Frame.cosd theta * x - Frame.sind theta * y,
   Frame.sind theta * x + Frame.cosd theta * y, z).

(** "rotate about Y by theta, then translate along local X by length" *)
Definition link_transform (theta length : R) (p : coords) : coords :=
  let '(x, y, z) := rotate_y theta p in (x + length, y, z).

(** "rotate about Z by (coxia_axis + alpha), then translate in XY by the
    leg's mount-origin offset" *)
Definition mount_transform (theta ox oy : R) (p : coords) : coords :=
  let '(x, y, z) := rotate_z theta p in (x + ox, y + oy, z).

(** Chaining: the pose of frame c in frame a, from b in a and c in b. *)
Definition chain (f g : coords -> coords) : coords -> coords :=
  fun p => f (g p).

End Spec.

(** The last row of a rotation followed by a translation. *)
Definition affine (m : Frame.t) : Prop := Frame.r3 m = Frame.Vec 0 0 0 1.

(** ** Observations of a state *)

Definition coords_of (v : Point.t) : Spec.coords :=
  (Point.x v, Point.y v, Point.z v).

Definition renamed (v : Point.t) (n : string) : Point.t :=
  Point.mk (Point.x v) (Point.y v) (Point.z v) (Some n).

(** The z coordinate of the object at [p]. *)
Definition height (h : list Point.t) (p : addr) : R :=
  match h !! p with
  | Some v => Point.z v
  | None => 0
  end.

(** The reference the scan of [compute_ground_contact] ends with. *)
Definition lowest (h : list Point.t) (points : list addr) (g : addr) : addr :=
  foldl (fun g p => if Rlt_dec (height h p) (height h g) then p else g) g points.

(** The mount transform [change_pose] builds for a leg whose mount point
    has the value [o]. *)
Definition new_frame (l : Linkage.t) (alpha : R) (o : Point.t) : Frame.t :=
  Frame.frame_zrotate_xytranslate
    (Linkage.coxia_axis l + alpha) (Point.x o) (Point.y o).

(** The four objects a returning [change_pose] creates. *)
Definition pose_points (l : Linkage.t) (alpha beta gamma : R) (o : Point.t)
    (oname lname : string) : list Point.t :=
  let p0 := Point.unnamed 0 0 0 in
  let f := new_frame l alpha o in
  [ renamed o (oname +:+ "-body-contact");
    Point.get_point_wrt
      (Point.get_point_wrt p0 (frame_01 (Linkage.a l) beta) None)
      f (Some (lname +:+ "-coxia"));
    Point.get_point_wrt
      (Point.get_point_wrt p0 (frame_02 (Linkage.a l) (Linkage.b l) beta gamma) None)
      f (Some (lname +:+ "-femur"));
    Point.get_point_wrt
      (Point.get_point_wrt p0
         (frame_03 (Linkage.a l) (Linkage.b l) (Linkage.c l) beta gamma) None)
      f (Some (lname +:+ "-tibia")) ].

(** The leg once [change_pose] has assigned the three angles. *)
Definition with_angles (alpha beta gamma : R) (l : Linkage.t) : Linkage.t :=
  Linkage.set_gamma gamma (Linkage.set_beta beta (Linkage.set_alpha alpha l)).

(** The state a returning [change_pose] leaves. *)
Definition posed (s : State) (alpha beta gamma : R) (o : Point.t)
    (oname lname : string) : State :=
  let n := length (heap s) in
  let h := heap s ++ pose_points (self s) alpha beta gamma o oname lname in
  let ps := [n; S n; S (S n); S (S (S n))] in
  mkState h
    (Linkage.set_ground_contact_point
       (lowest h (reverse ps) (S (S (S n))))
       (Linkage.set_all_points ps (with_angles alpha beta gamma (self s)))).

(** The body-contact-relative points of [change_pose], lines 141-144. *)
Definition wrt_body_contact (f : Frame.t) : Point.t :=
  Point.get_point_wrt (Point.unnamed 0 0 0) f None.

(** The objects behind a list of references. *)
Fixpoint objects (h : list Point.t) (ps : list addr) : option (list Point.t) :=
  match ps with
  | [] => Some []
  | p :: rest =>
      match h !! p, objects h rest with
      | Some v, Some vs => Some (v :: vs)
      | _, _ => None
      end
  end.

(** The values of p0, p1, p2, p3. *)
Definition stored_points (s : State) : option (list Point.t) :=
  match Linkage.all_points (self s) with
  | Some ps => objects (heap s) ps
  | None => None
  end.

Definition stored_coords (s : State) : option (list Spec.coords) :=
  option_map (map coords_of) (stored_points s).

(** What a caller can read from a leg: its numbers and texts, the value of
    the mount point, the values of the stored points in order, the value of
    [ground_contact_point] and the position in [all_points] that it
    references. *)
Record view := mkView {
  view_lengths : R * R * R;
  view_angles : option R * option R * option R;
  view_coxia_axis : R;
  view_new_origin : option Point.t;
  view_name : option string;
  view_id : option Z;
  view_points : option (list (option Point.t));
  view_ground_contact : option (option Point.t);
  view_ground_contact_index : option (option nat)
}.

Fixpoint position (g : addr) (ps : list addr) : option nat :=
  match ps with
  | [] => None
  | p :: rest => if decide (p = g) then Some 0%nat else option_map S (position g rest)
  end.

Definition observe (s : State) : view :=
  let l := self s in
  mkView
    (Linkage.a l, Linkage.b l, Linkage.c l)
    (Linkage.alpha l, Linkage.beta l, Linkage.gamma l)
    (Linkage.coxia_axis l)
    (heap s !! Linkage.new_origin l)
    (Linkage.name l)
    (Linkage.id l)
    (option_map (map (fun p : addr => heap s !! p)) (Linkage.all_points l))
    (option_map (fun g : addr => heap s !! g) (Linkage.ground_contact_point l))
    (match Linkage.ground_contact_point l, Linkage.all_points l with
     | Some g, Some ps => Some (position g ps)
     | _, _ => None
     end).

(** The store after [update_point_wrt(frame, height)] on the object at
    [p], and after the loop of [update_leg_wrt] over [points]. *)
Definition update_object (frame : Frame.t) (height : R)
    (h : list Point.t) (p : addr) : list Point.t :=
  match h !! p with
  | Some v => <[p := Point.update_point_wrt v frame height]> h
  | None => h
  end.

Definition updated (frame : Frame.t) (height : R)
    (h : list Point.t) (points : list addr) : list Point.t :=
  foldl (update_object frame height) h points.

(** ** Invariants and reachable states *)

(** Every reference of the leg points to an object, the point set has
    four entries, and the two names are strings. *)
Definition well_formed (s : State) : Prop :=
  exists ps g o,
    Linkage.all_points (self s) = Some ps /\
    length ps = 4%nat /\
    Forall (fun p => p < length (heap s))%nat ps /\
    Linkage.ground_contact_point (self s) = Some g /\
    (g < length (heap s))%nat /\
    heap s !! Linkage.new_origin (self s) = Some o /\
    is_Some (Point.name o) /\
    is_Some (Linkage.name (self s)).

Definition point_keys : list string := ["p0"; "p1"; "p2"; "p3"].

(** The states of a leg that its public operations produce: construction,
    [change_pose], [update_leg_wrt] and assignment to [p0] .. [p3]; the
    caller may create points in between. *)
Inductive reachable : State -> Prop :=
  | reach_init a b c alpha beta gamma coxia_axis new_origin name id_number h s :
      (new_origin < length h)%nat ->
      __init__ a b c alpha beta gamma coxia_axis new_origin name id_number h
        = (Ok tt, s) ->
      reachable s
  | reach_new_point s v :
      reachable s ->
      reachable (mkState (heap s ++ [v]) (self s))
  | reach_change_pose s alpha beta gamma :
      reachable s ->
      reachable (snd (change_pose alpha beta gamma s))
  | reach_update_leg_wrt s frame height :
      reachable s ->
      reachable (snd (update_leg_wrt frame height s))
  | reach_assign s key q :
      reachable s ->
      key ∈ point_keys ->
      (q < length (heap s))%nat ->
      reachable (snd (__setattr__ key q s)).

(** ** Statements about the ground contact point *)

(** [ground_contact_point] is one of the stored points and none of them
    is lower. *)
Definition ground_contact_is_lowest (s : State) : Prop :=
  exists ps g,
    Linkage.all_points (self s) = Some ps /\
    Linkage.ground_contact_point (self s) = Some g /\
    g ∈ ps /\
    Forall (fun p => (p < length (heap s))%nat /\
                     height (heap s) g <= height (heap s) p) ps.

(** Two stored points or more have the least z. *)
Definition tie_at_lowest (s : State) : Prop :=
  exists ps i j pi pj,
    Linkage.all_points (self s) = Some ps /\
    (i < j)%nat /\ ps !! i = Some pi /\ ps !! j = Some pj /\
    height (heap s) pi = height (heap s) pj /\
    Forall (fun p => height (heap s) pi <= height (heap s) p) ps.

(** [ground_contact_point] is a lowest point, and strictly lower than
    every point that the scan p3, p2, p1, p0 reaches after it: of tied
    points it is the last one scanned (the one nearest to the body). *)
Definition last_scanned_lowest (s : State) : Prop :=
  exists ps g k,
    Linkage.all_points (self s) = Some ps /\
    Linkage.ground_contact_point (self s) = Some g /\
    ps !! k = Some g /\
    (forall j p, ps !! j = Some p -> height (heap s) g <= height (heap s) p) /\
    (forall j p, ps !! j = Some p -> (j < k)%nat ->
                 height (heap s) g < height (heap s) p).

(** [ground_contact_point] is a lowest point, and strictly lower than
    every point that the scan p3, p2, p1, p0 reaches before it: of tied
    points it is the first one scanned (the one nearest to the tip). *)
Definition first_scanned_lowest (s : State) : Prop :=
  exists ps g k,
    Linkage.all_points (self s) = Some ps /\
    Linkage.ground_contact_point (self s) = Some g /\
    ps !! k = Some g /\
    (forall j p, ps !! j = Some p -> height (heap s) g <= height (heap s) p) /\
    (forall j p, ps !! j = Some p -> (k < j)%nat ->
                 height (heap s) g < height (heap s) p).

(** ** Statements about the stored points *)

(** Each of the four stored points has the coordinates of the
    corresponding body-contact-relative point taken through the mount
    transform; the first of these is the local origin. *)
Definition all_through_mount (s : State) (alpha beta gamma : R) (s' : State) : Prop :=
  exists o,
    heap s !! Linkage.new_origin (self s) = Some o /\
    let l := self s in
    let through q :=
      coords_of (Point.get_point_wrt q (new_frame l alpha o) None) in
    stored_coords s'
    = Some [ through (Point.unnamed 0 0 0);
             through (wrt_body_contact (frame_01 (Linkage.a l) beta));
             through (wrt_body_contact
                        (frame_02 (Linkage.a l) (Linkage.b l) beta gamma));
             through (wrt_body_contact
                        (frame_03 (Linkage.a l) (Linkage.b l) (Linkage.c l)
                                  beta gamma)) ].

(** [s'] is [s] with each stored point re-expressed through [frame] and
    offset by [height], and nothing else changed: the same leg record
    (lengths, angles, [coxia_axis] and every reference, that of the ground
    contact among them) and the same mount point. *)
Definition each_point_reframed (s : State) (frame : Frame.t) (height : R)
    (s' : State) : Prop :=
  self s' = self s /\
  heap s' !! Linkage.new_origin (self s) = heap s !! Linkage.new_origin (self s) /\
  exists ps,
    Linkage.all_points (self s) = Some ps /\
    forall p v, p ∈ ps -> heap s !! p = Some v ->
                heap s' !! p = Some (Point.update_point_wrt v frame height).

(** ** Example legs *)

Definition mount : Point.t := Point.mk 0 0 0 (Some "mount").

(** The object of [Linkage(1, 1, 1, new_origin=o, name="leg")] when
    [__init__] calls [change_pose], in a store that holds [o] alone. *)
Definition blank_leg (o : Point.t) : State :=
  mkState [o]
    (Linkage.mk 1 1 1 None None None 0 0%nat (Some "leg") None None None).

(** [Linkage(1, 1, 1, new_origin=mount, name="leg")] in a store that
    holds [mount] alone. *)
Definition neutral_leg : State :=
  mkState
    [ mount;
      Point.mk 0 0 0 (Some "mount-body-contact");
      Point.mk 1 0 0 (Some "leg-coxia");
      Point.mk 2 0 0 (Some "leg-femur");
      Point.mk 2 0 (-1) (Some "leg-tibia") ]
    (Linkage.mk 1 1 1 (Some 0) (Some 0) (Some 0) 0 0%nat (Some "leg") None
       (Some [1; 2; 3; 4]%nat) (Some 4%nat)).

(** [Linkage(1, 1, 1, gamma=90, new_origin=mount, name="leg")]: the
    tibia stretched out level with the femur. *)
Definition flat_leg : State :=
  mkState
    [ mount;
      Point.mk 0 0 0 (Some "mount-body-contact");
      Point.mk 1 0 0 (Some "leg-coxia");
      Point.mk 2 0 0 (Some "leg-femur");
      Point.mk 3 0 0 (Some "leg-tibia") ]
    (Linkage.mk 1 1 1 (Some 0) (Some 0) (Some 90) 0 0%nat (Some "leg") None
       (Some [1; 2; 3; 4]%nat) (Some 4%nat)).

(** A mount point one unit above the body plane. *)
Definition raised_mount : Point.t := Point.mk 0 0 1 (Some "mount").

(** [Linkage(1, 1, 1, new_origin=raised_mount, name="leg")]. *)
Definition raised_leg : State :=
  mkState
    [ raised_mount;
      Point.mk 0 0 1 (Some "mount-body-contact");
      Point.mk 1 0 0 (Some "leg-coxia");
      Point.mk 2 0 0 (Some "leg-femur");
      Point.mk 2 0 (-1) (Some "leg-tibia") ]
    (Linkage.mk 1 1 1 (Some 0) (Some 0) (Some 0) 0 0%nat (Some "leg") None
       (Some [1; 2; 3; 4]%nat) (Some 4%nat)).

(** Half a turn about the x axis. *)
Definition upside_down : Frame.t :=
  Frame.Rows (Frame.Vec 1 0 0 0) (Frame.Vec 0 (-1) 0 0)
             (Frame.Vec 0 0 (-1) 0) (Frame.Vec 0 0 0 1).

(** A point the caller creates, five units below the body plane. *)
Definition deep_point : Point.t := Point.mk 0 0 (-5) (Some "deep").

(** [neutral_leg] after [q = Point(0, 0, -5, "deep"); leg.p3 = q]. *)
Definition replaced_tip_leg : State :=
  mkState
    (heap neutral_leg ++ [deep_point])
    (Linkage.set_all_points [1; 2; 3; 5]%nat (self neutral_leg)).

(** [neutral_leg] after [q = Point(0, 0, -5, "deep"); leg.p0 = q;
    leg.p1 = q]: two entries of the point set are one object. *)
Definition aliased_leg : State :=
  mkState
    (heap neutral_leg ++ [deep_point])
    (Linkage.set_all_points [5; 5; 3; 4]%nat (self neutral_leg)).

(** ** Further statements about the leg *)

(** The class attribute [POINT_NAMES]. *)
Definition POINT_NAMES : list string := ["coxia"; "femur"; "tibia"].

(** The three angles have been assigned. *)
Definition angles_set (s : State) : Prop :=
  is_Some (Linkage.alpha (self s)) /\
  is_Some (Linkage.beta (self s)) /\
  is_Some (Linkage.gamma (self s)).

(** The square of the distance between two points. *)
Definition dist2 (u v : Spec.coords) : R :=
  let '(x1, y1, z1) := u in
  let '(x2, y2, z2) := v in
  (x2 - x1) * (x2 - x1) + (y2 - y1) * (y2 - y1) + (z2 - z1) * (z2 - z1).

(** A frame that turns about the z axis and translates: it maps a
    height z to z + [t]. *)
Definition level (frame : Frame.t) (t : R) : Prop :=
  Frame.r2 frame = Frame.Vec 0 0 1 t.

(** How many entries of a point set reference the object [p]. *)
Definition occurrences (p : addr) (ps : list addr) : nat :=
  count_occ Nat.eq_dec ps p.

(** [leg.ground_contact_point = leg.compute_ground_contact()], what a
    caller does to refresh the ground contact. *)
Definition refresh_ground_contact : M unit :=
  g <- compute_ground_contact ;; __setattr__ "ground_contact_point" g.

(** [leg.key = Point(x, y, z, name)] followed by reading [leg.key]: the
    statements of [test_set_leg_point], returning the value read. *)
Definition set_then_get (key : string) (v : Point.t) : M Point.t :=
  q <- alloc v ;;
  __setattr__ key q ;;
  r <- __getattr__ key ;;
  deref r.

(** [neutral_leg] after [leg.name = None]. *)
Definition nameless_leg : State :=
  mkState (heap neutral_leg)
    (Linkage.mk 1 1 1 (Some 0) (Some 0) (Some 0) 0 0%nat None None
       (Some [1; 2; 3; 4]%nat) (Some 4%nat)).

(** [neutral_leg] after [leg.all_points = leg.all_points[:3]]. *)
Definition short_leg : State :=
  mkState (heap neutral_leg)
    (Linkage.set_all_points [1; 2; 3]%nat (self neutral_leg)).

(** A quarter turn about the z axis, and a shift by one along x. *)
Definition quarter_turn : Frame.t := Frame.frame_zrotate_xytranslate 90 0 0.
Definition shift_x : Frame.t := Frame.frame_zrotate_xytranslate 0 1 0.

(** ** Evaluation of the monad *)

Lemma bind_ok {A B} (m : M A) (k : A -> M B) s v s' :
  m s = (Ok v, s') -> bind m k s = k v s'.
Proof. intros H. unfold bind. rewrite H. reflexivity. Qed.

Lemma bind_raise {A B} (m : M A) (k : A -> M B) s e s' :
  m s = (Raise e, s') -> bind m k s = (Raise e, s').
Proof. intros H. unfold bind. rewrite H. reflexivity. Qed.

Lemma deref_ok s p v : heap s !! p = Some v -> deref p s = (Ok v, s).
Proof. intros H. unfold deref. rewrite H. reflexivity. Qed.

Lemma height_lookup h p v : h !! p = Some v -> height h p = Point.z v.
Proof. intros H. unfold height. rewrite H. reflexivity. Qed.

(** On objects that exist, the loop is the fold [lowest]. *)
Lemma scan_lowest_lowest s points g :
  Forall (fun p => p < length (heap s))%nat (g :: points) ->
  scan_lowest points g s = (Ok (lowest (heap s) points g), s).
Proof.
  revert g. induction points as [|p rest IH]; intros g Hall.
  - reflexivity.
  - inversion Hall as [|? ? Hg Hrest]; subst.
    inversion Hrest as [|? ? Hp Hrest']; subst.
    destruct (lookup_lt_is_Some_2 _ _ Hp) as [vp Hvp].
    destruct (lookup_lt_is_Some_2 _ _ Hg) as [vg Hvg].
    cbn [scan_lowest lowest foldl].
    rewrite (bind_ok _ _ _ _ _ (deref_ok _ _ _ Hvp)).
    rewrite (bind_ok _ _ _ _ _ (deref_ok _ _ _ Hvg)).
    rewrite (height_lookup _ _ _ Hvp), (height_lookup _ _ _ Hvg).
    destruct (Rlt_dec (Point.z vp) (Point.z vg)); apply IH; constructor; assumption.
Qed.

Lemma deepcopy_ok s p v :
  heap s !! p = Some v ->
  deepcopy p s = (Ok (length (heap s)), mkState (heap s ++ [v]) (self s)).
Proof.
  intros H. unfold deepcopy.
  rewrite (bind_ok _ _ _ _ _ (deref_ok _ _ _ H)). reflexivity.
Qed.

Lemma iadd_name_last h l v n suffix :
  Point.name v = Some n ->
  iadd_name (length h) suffix (mkState (h ++ [v]) l)
  = (Ok tt, mkState (h ++ [renamed v (n +:+ suffix)]) l).
Proof.
  intros Hn. unfold iadd_name.
  assert (Hv : (h ++ [v]) !! length h = Some v) by apply list_lookup_middle, eq_refl.
  rewrite (bind_ok _ _ _ _ _ (deref_ok (mkState (h ++ [v]) l) _ _ Hv)).
  rewrite Hn. cbn [str_add]. unfold bind, ret, store. cbn [heap self]. rewrite Hv.
  f_equal. f_equal.
  rewrite insert_app_r_alt by lia. rewrite Nat.sub_diag. reflexivity.
Qed.

Lemma iadd_name_unnamed h l v suffix :
  Point.name v = None ->
  iadd_name (length h) suffix (mkState (h ++ [v]) l)
  = (Raise TypeError, mkState (h ++ [v]) l).
Proof.
  intros Hn. unfold iadd_name.
  assert (Hv : (h ++ [v]) !! length h = Some v) by apply list_lookup_middle, eq_refl.
  rewrite (bind_ok _ _ _ _ _ (deref_ok (mkState (h ++ [v]) l) _ _ Hv)).
  rewrite Hn. reflexivity.
Qed.

Lemma compute_ground_contact_ok s ps tip :
  Linkage.all_points (self s) = Some ps ->
  ps !! 3%nat = Some tip ->
  Forall (fun p => p < length (heap s))%nat ps ->
  compute_ground_contact s = (Ok (lowest (heap s) (reverse ps) tip), s).
Proof.
  intros Hps Htip Hall. unfold compute_ground_contact, __getattr__.
  change (attr_map !! "p3") with (Some 3%nat).
  unfold bind at 1. unfold bind at 1. unfold slot at 1. rewrite Hps, Htip. cbn [ret].
  unfold bind, slot. rewrite Hps.
  apply scan_lowest_lowest. constructor.
  - exact (Forall_lookup_1 _ _ _ _ Hall Htip).
  - apply Forall_reverse. assumption.
Qed.

(** ** The four outcomes of [change_pose] *)

Ltac enter_change_pose :=
  unfold change_pose;
  cbv [bind modify_self get_self slot];
  cbn [heap self Linkage.set_alpha Linkage.set_beta Linkage.set_gamma
       Linkage.alpha Linkage.beta Linkage.gamma Linkage.new_origin
       Linkage.name Linkage.a Linkage.b Linkage.c Linkage.coxia_axis];
  unfold deref at 1; cbn [heap].

Lemma change_pose_returns s alpha beta gamma o oname lname :
  heap s !! Linkage.new_origin (self s) = Some o ->
  Point.name o = Some oname ->
  Linkage.name (self s) = Some lname ->
  change_pose alpha beta gamma s = (Ok tt, posed s alpha beta gamma o oname lname).
Proof.
  destruct s as [h l]. cbn [heap self]. intros Ho Hon Hln.
  enter_change_pose. rewrite Ho.
  rewrite (deepcopy_ok (mkState h _) _ _ Ho). cbn [heap self].
  rewrite (iadd_name_last _ _ _ _ _ Hon).
  rewrite Hln. cbn [str_add ret alloc heap self].
  rewrite !length_app. cbn [length]. rewrite <- !Nat.add_assoc. cbn [Nat.add].
  rewrite !Nat.add_succ_r, Nat.add_0_r.
  rewrite <- !app_assoc. cbn [app].
  erewrite compute_ground_contact_ok.
  - reflexivity.
  - reflexivity.
  - reflexivity.
  - cbn [heap]. rewrite length_app. cbn [length].
    repeat constructor; lia.
Qed.

Lemma change_pose_unnamed_leg s alpha beta gamma o oname :
  heap s !! Linkage.new_origin (self s) = Some o ->
  Point.name o = Some oname ->
  Linkage.name (self s) = None ->
  change_pose alpha beta gamma s
  = (Raise TypeError,
     mkState (heap s ++ [renamed o (oname +:+ "-body-contact")])
             (with_angles alpha beta gamma (self s))).
Proof.
  destruct s as [h l]. cbn [heap self]. intros Ho Hon Hln.
  enter_change_pose. rewrite Ho.
  rewrite (deepcopy_ok (mkState h _) _ _ Ho). cbn [heap self].
  rewrite (iadd_name_last _ _ _ _ _ Hon).
  rewrite Hln. reflexivity.
Qed.

Lemma change_pose_unnamed_origin s alpha beta gamma o :
  heap s !! Linkage.new_origin (self s) = Some o ->
  Point.name o = None ->
  change_pose alpha beta gamma s
  = (Raise TypeError,
     mkState (heap s ++ [o]) (with_angles alpha beta gamma (self s))).
Proof.
  destruct s as [h l]. cbn [heap self]. intros Ho Hon.
  enter_change_pose. rewrite Ho.
  rewrite (deepcopy_ok (mkState h _) _ _ Ho). cbn [heap self].
  rewrite (iadd_name_unnamed _ _ _ _ Hon). reflexivity.
Qed.

Lemma change_pose_dangling s alpha beta gamma :
  heap s !! Linkage.new_origin (self s) = None ->
  change_pose alpha beta gamma s
  = (Raise Unmodelled, mkState (heap s) (with_angles alpha beta gamma (self s))).
Proof.
  destruct s as [h l]. cbn [heap self]. intros Ho.
  enter_change_pose. rewrite Ho. reflexivity.
Qed.

(** A returning [change_pose] found a named mount point and a named leg,
    and left the state [posed]. *)
Lemma change_pose_inv s alpha beta gamma s' :
  change_pose alpha beta gamma s = (Ok tt, s') ->
  exists o oname lname,
    heap s !! Linkage.new_origin (self s) = Some o /\
    Point.name o = Some oname /\
    Linkage.name (self s) = Some lname /\
    s' = posed s alpha beta gamma o oname lname.
Proof.
  intros H.
  destruct (heap s !! Linkage.new_origin (self s)) as [o|] eqn:Ho.
  - destruct (Point.name o) as [oname|] eqn:Hon.
    + destruct (Linkage.name (self s)) as [lname|] eqn:Hln.
      * rewrite (change_pose_returns _ _ _ _ _ _ _ Ho Hon Hln) in H.
        exists o, oname, lname. repeat split; congruence.
      * rewrite (change_pose_unnamed_leg _ _ _ _ _ _ Ho Hon Hln) in H. discriminate.
    + rewrite (change_pose_unnamed_origin _ _ _ _ _ Ho Hon) in H. discriminate.
  - rewrite (change_pose_dangling _ _ _ _ Ho) in H. discriminate.
Qed.

(** ** The scan for the lowest point *)

(** Either the scan keeps its first candidate, which no scanned point is
    strictly below, or it ends on a scanned point that is strictly below
    the candidate and everything scanned before it, and not above what is
    scanned after it. *)
Lemma lowest_cons h p rest g :
  lowest h (p :: rest) g
  = lowest h rest (if Rlt_dec (height h p) (height h g) then p else g).
Proof. reflexivity. Qed.

Lemma lowest_split h points g :
  (lowest h points g = g /\
   Forall (fun p => height h g <= height h p) points) \/
  (exists pre post,
      points = pre ++ lowest h points g :: post /\
      height h (lowest h points g) < height h g /\
      Forall (fun p => height h (lowest h points g) < height h p) pre /\
      Forall (fun p => height h (lowest h points g) <= height h p) post).
Proof.
  revert g. induction points as [|p rest IH]; intros g.
  - left. split; [reflexivity | constructor].
  - rewrite lowest_cons.
    destruct (Rlt_dec (height h p) (height h g)) as [Hlt|Hge].
    + right. destruct (IH p) as [[Heq Hall] | (pre & post & Hsplit & Hr & Hpre & Hpost)].
      * exists [], rest. cbn [app]. rewrite Heq.
        repeat split; [assumption | constructor | assumption].
      * exists (p :: pre), post. split; [cbn [app]; congruence|].
        split; [lra|]. split; [constructor; assumption | assumption].
    + destruct (IH g) as [[Heq Hall] | (pre & post & Hsplit & Hr & Hpre & Hpost)].
      * left. split; [assumption|]. constructor; [lra | assumption].
      * right. exists (p :: pre), post. split; [cbn [app]; congruence|].
        split; [assumption|]. split; [constructor; [lra | assumption] | assumption].
Qed.

(** Scanning a point set from its last entry backwards, starting with
    the last entry as candidate: the result is an entry, no entry is
    below it, and every entry after it in the set is strictly above. *)
Lemma lowest_reverse h ps tip :
  last ps = Some tip ->
  exists k,
    ps !! k = Some (lowest h (reverse ps) tip) /\
    (forall p, p ∈ ps -> height h (lowest h (reverse ps) tip) <= height h p) /\
    (forall j p, ps !! j = Some p -> (k < j)%nat ->
                 height h (lowest h (reverse ps) tip) < height h p).
Proof.
  intros Hlast.
  destruct (lowest_split h (reverse ps) tip) as
    [[Heq Hall] | (pre & post & Hsplit & Hr & Hpre & Hpost)].
  - rewrite Heq. exists (pred (length ps)). split; [|split].
    + rewrite <- Hlast. symmetry. apply last_lookup.
    + intros p Hp. rewrite Forall_forall in Hall. apply Hall.
      apply elem_of_reverse. assumption.
    + intros j p Hj Hlt. apply lookup_lt_Some in Hj. lia.
  - set (r := lowest h (reverse ps) tip) in *.
    assert (Hps : ps = reverse post ++ r :: reverse pre).
    { rewrite <- (reverse_involutive ps), Hsplit.
      rewrite reverse_app, reverse_cons, <- app_assoc. reflexivity. }
    exists (length (reverse post)). split; [|split].
    + rewrite Hps. apply list_lookup_middle. reflexivity.
    + intros p Hp. rewrite Hps in Hp.
      rewrite Forall_forall in Hpre, Hpost.
      apply elem_of_app in Hp as [Hp|Hp].
      * apply Hpost, elem_of_reverse, Hp.
      * apply elem_of_cons in Hp as [->|Hp]; [lra|].
        apply Rlt_le, Hpre, elem_of_reverse, Hp.
    + intros j p Hj Hlt. rewrite Hps in Hj.
      rewrite lookup_app_r in Hj by lia.
      destruct (j - length (reverse post))%nat as [|i] eqn:Hi; [lia|].
      cbn in Hj. rewrite Forall_forall in Hpre.
      apply Hpre, elem_of_reverse. eapply list_elem_of_lookup_2. eassumption.
Qed.

(** ** Angles in degrees *)

Lemma cosd_0 theta : theta = 0 -> Frame.cosd theta = 1.
Proof.
  intros ->. unfold Frame.cosd.
  replace (0 * PI / 180) with 0 by lra. apply cos_0.
Qed.

Lemma sind_0 theta : theta = 0 -> Frame.sind theta = 0.
Proof.
  intros ->. unfold Frame.sind.
  replace (0 * PI / 180) with 0 by lra. apply sin_0.
Qed.

Lemma cosd_90 theta : theta = 90 -> Frame.cosd theta = 0.
Proof.
  intros ->. unfold Frame.cosd.
  replace (90 * PI / 180) with (PI / 2) by lra. apply cos_PI2.
Qed.

Lemma sind_90 theta : theta = 90 -> Frame.sind theta = 1.
Proof.
  intros ->. unfold Frame.sind.
  replace (90 * PI / 180) with (PI / 2) by lra. apply sin_PI2.
Qed.

(** Rewrites the sines and cosines of angles that are 0 or 90 degrees. *)
Ltac right_angles :=
  repeat match goal with
    | |- context [Frame.cosd ?t] =>
        first [ rewrite (cosd_0 t) by lra | rewrite (cosd_90 t) by lra ]
    | |- context [Frame.sind ?t] =>
        first [ rewrite (sind_0 t) by lra | rewrite (sind_90 t) by lra ]
    end.

(** Unfolds the matrix products and applications down to arithmetic. *)
Ltac matrices :=
  cbv [pose_points new_frame wrt_body_contact renamed coords_of
       frame_01 frame_02 frame_03 frame_12 frame_23
       Point.get_point_wrt Point.update_point_wrt Point.unnamed Point.homogeneous
       Point.x Point.y Point.z Point.name
       Frame.matvec Frame.matmul Frame.row_times Frame.dot Frame.identity
       Frame.col0 Frame.col1 Frame.col2 Frame.col3
       Frame.v0 Frame.v1 Frame.v2 Frame.v3
       Frame.r0 Frame.r1 Frame.r2 Frame.r3
       Frame.frame_yrotate_xtranslate Frame.frame_zrotate_xytranslate
       Spec.link_transform Spec.mount_transform Spec.rotate_y Spec.rotate_z
       Spec.chain Spec.local_origin].

(** Equality of two coordinate triples, by ring arithmetic. *)
Ltac coords_ring := repeat (apply (f_equal2 pair)); ring.

(** Decides the comparisons of a scan over explicit heights. *)
Ltac scan :=
  cbv [reverse rev_append];
  repeat (rewrite lowest_cons;
          cbv [height lookup list_lookup Point.z];
          match goal with
          | |- context [Rlt_dec ?u ?v] => destruct (Rlt_dec u v); try lra
          end);
  try reflexivity.

(** Replaces the scan in the goal by the reference [g] it ends with. *)
Ltac scan_to g :=
  match goal with
  | |- context [lowest ?h ?ps ?g0] =>
      let Hg := fresh "Hg" in
      assert (Hg : lowest h ps g0 = g) by scan;
      rewrite Hg; clear Hg
  end.

(** ** The example legs *)

(** Evaluates [posed] on an example: the four objects are [pts] and the
    scan ends on [g]. *)
Ltac pose_is pts g :=
  f_equal; unfold posed, blank_leg; cbn [heap self length app];
  match goal with
  | |- context [pose_points ?l ?a ?b ?c ?o ?n ?m] =>
      let H := fresh "Hpts" in
      assert (H : pose_points l a b c o n m = pts)
        by (matrices;
            cbn [mount raised_mount Linkage.a Linkage.b Linkage.c
                 Linkage.coxia_axis];
            right_angles; repeat (f_equal; try lra));
      rewrite H; clear H
  end;
  cbn [app]; scan_to g; reflexivity.

Lemma neutral_leg_posed :
  change_pose 0 0 0 (blank_leg mount) = (Ok tt, neutral_leg).
Proof.
  rewrite (change_pose_returns _ _ _ _ mount "mount" "leg") by reflexivity.
  pose_is [ Point.mk 0 0 0 (Some "mount-body-contact");
            Point.mk 1 0 0 (Some "leg-coxia");
            Point.mk 2 0 0 (Some "leg-femur");
            Point.mk 2 0 (-1) (Some "leg-tibia") ] 4%nat.
Qed.

Lemma flat_leg_posed :
  change_pose 0 0 90 (blank_leg mount) = (Ok tt, flat_leg).
Proof.
  rewrite (change_pose_returns _ _ _ _ mount "mount" "leg") by reflexivity.
  pose_is [ Point.mk 0 0 0 (Some "mount-body-contact");
            Point.mk 1 0 0 (Some "leg-coxia");
            Point.mk 2 0 0 (Some "leg-femur");
            Point.mk 3 0 0 (Some "leg-tibia") ] 4%nat.
Qed.

Lemma raised_leg_posed :
  change_pose 0 0 0 (blank_leg raised_mount) = (Ok tt, raised_leg).
Proof.
  rewrite (change_pose_returns _ _ _ _ raised_mount "mount" "leg") by reflexivity.
  pose_is [ Point.mk 0 0 1 (Some "mount-body-contact");
            Point.mk 1 0 0 (Some "leg-coxia");
            Point.mk 2 0 0 (Some "leg-femur");
            Point.mk 2 0 (-1) (Some "leg-tibia") ] 4%nat.
Qed.

(** ** The state after a returning [change_pose] *)

Lemma posed_heap s alpha beta gamma o oname lname :
  heap (posed s alpha beta gamma o oname lname)
  = heap s ++ pose_points (self s) alpha beta gamma o oname lname.
Proof. reflexivity. Qed.

Lemma posed_all_points s alpha beta gamma o oname lname :
  Linkage.all_points (self (posed s alpha beta gamma o oname lname))
  = Some [length (heap s); S (length (heap s)); S (S (length (heap s)));
          S (S (S (length (heap s))))].
Proof. reflexivity. Qed.

Lemma posed_length s alpha beta gamma o oname lname :
  length (heap (posed s alpha beta gamma o oname lname))
  = (length (heap s) + 4)%nat.
Proof. rewrite posed_heap, length_app. reflexivity. Qed.

(** The object of the [i]-th stored point. *)
Lemma posed_lookup s alpha beta gamma o oname lname i :
  heap (posed s alpha beta gamma o oname lname) !! (length (heap s) + i)%nat
  = pose_points (self s) alpha beta gamma o oname lname !! i.
Proof.
  rewrite posed_heap, lookup_app_r by lia. f_equal. lia.
Qed.

(** Objects that existed before the call are untouched. *)
Lemma posed_lookup_old s alpha beta gamma o oname lname p v :
  heap s !! p = Some v ->
  heap (posed s alpha beta gamma o oname lname) !! p = Some v.
Proof. intros H. rewrite posed_heap. apply lookup_app_l_Some, H. Qed.

(** What the recomputed [ground_contact_point] is: a stored point, at
    position [k], with no stored point below it and every stored point
    after position [k] strictly above. *)
Lemma posed_ground_contact s alpha beta gamma o oname lname :
  let s' := posed s alpha beta gamma o oname lname in
  exists ps g k,
    Linkage.all_points (self s') = Some ps /\
    Linkage.ground_contact_point (self s') = Some g /\
    ps !! k = Some g /\
    Forall (fun p => (p < length (heap s'))%nat) ps /\
    (forall p, p ∈ ps -> height (heap s') g <= height (heap s') p) /\
    (forall j p, ps !! j = Some p -> (k < j)%nat ->
                 height (heap s') g < height (heap s') p).
Proof.
  intros s'. set (n := length (heap s)).
  set (ps := [n; S n; S (S n); S (S (S n))]).
  destruct (lowest_reverse (heap s') ps (S (S (S n))) eq_refl) as (k & Hk & Hle & Hlt).
  exists ps, (lowest (heap s') (reverse ps) (S (S (S n)))), k.
  repeat split; try assumption; try reflexivity.
  unfold s'. rewrite posed_length. fold n.
  subst ps. repeat constructor; lia.
Qed.

(** ** The loop of [update_leg_wrt] *)

Section Reframe.

Variable frame : Frame.t.
Variable height : R.

Lemma update_point_wrt_ok s p v :
  heap s !! p = Some v ->
  update_point_wrt p frame height s
  = (Ok tt, mkState (update_object frame height (heap s) p) (self s)).
Proof.
  intros H. unfold update_point_wrt.
  rewrite (bind_ok _ _ _ _ _ (deref_ok _ _ _ H)).
  unfold store, update_object. rewrite H. reflexivity.
Qed.

Lemma update_object_length h p :
  length (update_object frame height h p) = length h.
Proof.
  unfold update_object. destruct (h !! p); [apply length_insert | reflexivity].
Qed.

Lemma updated_cons h p rest :
  updated frame height h (p :: rest)
  = updated frame height (update_object frame height h p) rest.
Proof. reflexivity. Qed.

Lemma updated_length points h :
  length (updated frame height h points) = length h.
Proof.
  revert h. induction points as [|p rest IH]; intros h; [reflexivity|].
  rewrite updated_cons.
  rewrite IH. apply update_object_length.
Qed.

(** On objects that exist, the loop returns and leaves [updated]. *)
Lemma update_each_updated points s :
  Forall (fun p => p < length (heap s))%nat points ->
  update_each points frame height s
  = (Ok tt, mkState (updated frame height (heap s) points) (self s)).
Proof.
  revert s. induction points as [|p rest IH]; intros s Hall.
  - destruct s. reflexivity.
  - inversion Hall as [|? ? Hp Hrest]; subst.
    destruct (lookup_lt_is_Some_2 _ _ Hp) as [v Hv].
    cbn [update_each].
    rewrite (bind_ok _ _ _ _ _ (update_point_wrt_ok _ _ _ Hv)).
    rewrite IH.
    + reflexivity.
    + cbn [heap]. rewrite update_object_length. assumption.
Qed.

Lemma update_leg_wrt_updated s ps :
  Linkage.all_points (self s) = Some ps ->
  Forall (fun p => p < length (heap s))%nat ps ->
  update_leg_wrt frame height s
  = (Ok tt, mkState (updated frame height (heap s) ps) (self s)).
Proof.
  intros Hps Hall. unfold update_leg_wrt, bind, slot. rewrite Hps.
  apply update_each_updated, Hall.
Qed.

Lemma update_object_other h p q :
  p <> q -> update_object frame height h p !! q = h !! q.
Proof.
  intros Hne. unfold update_object.
  destruct (h !! p); [apply list_lookup_insert_ne, Hne | reflexivity].
Qed.

Lemma update_object_same h p v :
  h !! p = Some v ->
  update_object frame height h p !! p = Some (Point.update_point_wrt v frame height).
Proof.
  intros H. unfold update_object. rewrite H.
  apply list_lookup_insert_eq. eapply lookup_lt_Some, H.
Qed.

(** Objects outside the point set are untouched. *)
Lemma updated_outside points h q :
  q ∉ points -> updated frame height h points !! q = h !! q.
Proof.
  revert h. induction points as [|p rest IH]; intros h Hq; [reflexivity|].
  apply not_elem_of_cons in Hq as [Hne Hq].
  rewrite updated_cons.
  rewrite IH by assumption. apply update_object_other. congruence.
Qed.

(** An object that the point set references once is updated once. *)
Lemma updated_once points h p v :
  NoDup points -> p ∈ points -> h !! p = Some v ->
  updated frame height h points !! p
  = Some (Point.update_point_wrt v frame height).
Proof.
  revert h. induction points as [|p' rest IH]; intros h Hnd Hin Hv.
  - apply elem_of_nil in Hin. contradiction.
  - apply NoDup_cons in Hnd as [Hnotin Hnd].
    rewrite updated_cons.
    apply elem_of_cons in Hin as [->|Hin].
    + rewrite updated_outside by assumption. apply update_object_same, Hv.
    + apply IH; [assumption | assumption |].
      rewrite update_object_other; [assumption|].
      intros ->. contradiction.
Qed.

(** The loop changes no name. *)
Lemma update_object_name h p q v :
  h !! q = Some v ->
  exists v', update_object frame height h p !! q = Some v' /\
             Point.name v' = Point.name v.
Proof.
  intros Hv. destruct (decide (p = q)) as [->|Hne].
  - rewrite (update_object_same _ _ _ Hv). eexists. split; reflexivity.
  - rewrite update_object_other by assumption. exists v. split; [assumption|reflexivity].
Qed.

Lemma updated_name points h q v :
  h !! q = Some v ->
  exists v', updated frame height h points !! q = Some v' /\
             Point.name v' = Point.name v.
Proof.
  revert h v. induction points as [|p rest IH]; intros h v Hv.
  - exists v. split; [assumption | reflexivity].
  - rewrite updated_cons.
    destruct (update_object_name h p q v Hv) as (v1 & Hv1 & Hn1).
    destruct (IH _ _ Hv1) as (v2 & Hv2 & Hn2).
    exists v2. split; [assumption | congruence].
Qed.

End Reframe.

(** ** Every reachable state is well formed *)

Lemma point_keys_attr_map key :
  key ∈ point_keys -> exists i, attr_map !! key = Some i /\ (i < 4)%nat.
Proof.
  unfold point_keys. rewrite !elem_of_cons, elem_of_nil.
  intros [->|[->|[->|[->|[]]]]];
    [exists 0%nat | exists 1%nat | exists 2%nat | exists 3%nat];
    (split; [reflexivity | lia]).
Qed.

Lemma assign_point s ps key i q :
  Linkage.all_points (self s) = Some ps ->
  attr_map !! key = Some i ->
  (i < length ps)%nat ->
  __setattr__ key q s
  = (Ok tt, mkState (heap s) (Linkage.set_all_points (<[i := q]> ps) (self s))).
Proof.
  intros Hps Hkey Hi. unfold __setattr__. rewrite Hkey.
  unfold bind, slot. rewrite Hps.
  destruct (lookup_lt_is_Some_2 ps i Hi) as [p Hp]. rewrite Hp.
  reflexivity.
Qed.

Lemma posed_well_formed s alpha beta gamma o oname lname :
  heap s !! Linkage.new_origin (self s) = Some o ->
  Point.name o = Some oname ->
  Linkage.name (self s) = Some lname ->
  well_formed (posed s alpha beta gamma o oname lname).
Proof.
  intros Ho Hon Hln.
  destruct (posed_ground_contact s alpha beta gamma o oname lname)
    as (ps & g & k & Hps & Hg & Hk & Hvalid & _).
  exists ps, g, o. repeat split; try assumption.
  - rewrite posed_all_points in Hps. injection Hps as <-. reflexivity.
  - exact (Forall_lookup_1 _ _ _ _ Hvalid Hk).
  - apply posed_lookup_old, Ho.
  - rewrite Hon. eexists. reflexivity.
  - cbn. rewrite Hln. eexists. reflexivity.
Qed.

Lemma well_formed_change_pose s alpha beta gamma :
  well_formed s ->
  exists o oname lname,
    heap s !! Linkage.new_origin (self s) = Some o /\
    Point.name o = Some oname /\
    Linkage.name (self s) = Some lname /\
    change_pose alpha beta gamma s
    = (Ok tt, posed s alpha beta gamma o oname lname).
Proof.
  intros (ps & g & o & _ & _ & _ & _ & _ & Ho & [oname Hon] & [lname Hln]).
  exists o, oname, lname. repeat split; try assumption.
  apply change_pose_returns; assumption.
Qed.

Theorem reachable_well_formed s : reachable s -> well_formed s.
Proof.
  induction 1 as
    [a b c alpha beta gamma ax no name idn h s Hno Hinit
    | s v _ IH | s alpha beta gamma _ IH | s frame height _ IH
    | s key q _ IH Hkey Hq].
  - unfold __init__ in Hinit.
    apply change_pose_inv in Hinit as (o & oname & lname & Ho & Hon & Hln & ->).
    apply posed_well_formed; assumption.
  - destruct IH as (ps & g & o & Hps & Hlen & Hvalid & Hg & Hgv & Ho & Hon & Hln).
    exists ps, g, o. cbn [heap self]. rewrite length_app. cbn [length].
    repeat split; try assumption.
    + eapply Forall_impl; [exact Hvalid|]. cbn. intros; lia.
    + lia.
    + apply lookup_app_l_Some, Ho.
  - destruct (well_formed_change_pose s alpha beta gamma IH)
      as (o & oname & lname & Ho & Hon & Hln & ->).
    apply posed_well_formed; assumption.
  - destruct IH as (ps & g & o & Hps & Hlen & Hvalid & Hg & Hgv & Ho & Hon & Hln).
    rewrite (update_leg_wrt_updated frame height _ _ Hps Hvalid). cbn [snd].
    destruct (updated_name frame height ps _ _ _ Ho) as (o' & Ho' & Hname).
    exists ps, g, o'. cbn [heap self]. rewrite updated_length.
    repeat split; try assumption. rewrite Hname. assumption.
  - destruct IH as (ps & g & o & Hps & Hlen & Hvalid & Hg & Hgv & Ho & Hon & Hln).
    destruct (point_keys_attr_map key Hkey) as (i & Hi & Hi4).
    rewrite (assign_point _ ps key i q Hps Hi) by lia. cbn [snd].
    exists (<[i := q]> ps), g, o. cbn [heap self].
    repeat split; try assumption.
    + rewrite length_insert. assumption.
    + apply Forall_insert; assumption.
Qed.

(** ** The stored points after a returning [change_pose] *)

Lemma objects_app_new h new k :
  objects (h ++ new) (seq (length h + k) (length new - k)) = Some (drop k new).
Proof.
  remember (length new - k)%nat as m eqn:Hm.
  revert k Hm. induction m as [|m IH]; intros k Hm.
  - cbn. rewrite drop_ge by lia. reflexivity.
  - cbn [seq objects].
    rewrite lookup_app_r by lia.
    replace (length h + k - length h)%nat with k by lia.
    destruct (lookup_lt_is_Some_2 new k ltac:(lia)) as [v Hv]. rewrite Hv.
    replace (S (length h + k)) with (length h + S k)%nat by lia.
    rewrite IH by lia.
    rewrite (drop_S _ _ _ Hv). reflexivity.
Qed.

Lemma posed_stored s alpha beta gamma o oname lname :
  stored_points (posed s alpha beta gamma o oname lname)
  = Some (pose_points (self s) alpha beta gamma o oname lname).
Proof.
  unfold stored_points. rewrite posed_all_points, posed_heap.
  pose proof (objects_app_new (heap s)
                (pose_points (self s) alpha beta gamma o oname lname) 0) as H.
  rewrite Nat.add_0_r in H. exact H.
Qed.

(** ** Matrices and the spec's transforms *)

Lemma get_point_wrt_link p theta x n :
  coords_of (Point.get_point_wrt p (Frame.frame_yrotate_xtranslate theta x) n)
  = Spec.link_transform theta x (coords_of p).
Proof. matrices. coords_ring. Qed.

Lemma get_point_wrt_mount p theta x y n :
  coords_of (Point.get_point_wrt p (Frame.frame_zrotate_xytranslate theta x y) n)
  = Spec.mount_transform theta x y (coords_of p).
Proof. matrices. coords_ring. Qed.

Lemma affine_link theta x : affine (Frame.frame_yrotate_xtranslate theta x).
Proof. reflexivity. Qed.

Lemma affine_matmul m n : affine m -> affine n -> affine (Frame.matmul m n).
Proof.
  unfold affine. destruct m as [m0 m1 m2 m3], n as [n0 n1 n2 n3].
  cbn. intros -> ->. matrices. f_equal; ring.
Qed.

(** Applying a product of frames is applying the second, then the
    first: chaining. *)
Lemma get_point_wrt_matmul p m n name name' :
  affine n ->
  coords_of (Point.get_point_wrt p (Frame.matmul m n) name)
  = coords_of (Point.get_point_wrt (Point.get_point_wrt p n name') m name).
Proof.
  unfold affine. destruct m as [m0 m1 m2 m3], n as [n0 n1 n2 n3].
  destruct m0, m1, m2, m3, n0, n1, n2. cbn. intros ->.
  matrices. coords_ring.
Qed.

Lemma coords_of_eq p q : coords_of p = coords_of q ->
  forall m n, coords_of (Point.get_point_wrt p m n)
            = coords_of (Point.get_point_wrt q m n).
Proof.
  destruct p, q. unfold coords_of. cbn. intros [= -> -> ->]. reflexivity.
Qed.

(** The body-contact-relative points are the local origin through the
    spec's link transforms and their chains. *)
Lemma coxia_wrt_body_contact a beta :
  coords_of (wrt_body_contact (frame_01 a beta))
  = Spec.link_transform (- beta) a Spec.local_origin.
Proof. apply get_point_wrt_link. Qed.

Lemma femur_wrt_body_contact a b beta gamma :
  coords_of (wrt_body_contact (frame_02 a b beta gamma))
  = Spec.chain (Spec.link_transform (- beta) a)
               (Spec.link_transform (90 - gamma) b) Spec.local_origin.
Proof.
  unfold wrt_body_contact, frame_02, Spec.chain.
  rewrite (get_point_wrt_matmul _ _ _ _ None) by apply affine_link.
  unfold frame_01 at 1. rewrite get_point_wrt_link. f_equal.
  apply get_point_wrt_link.
Qed.

Lemma tibia_wrt_body_contact a b c beta gamma :
  coords_of (wrt_body_contact (frame_03 a b c beta gamma))
  = Spec.chain (Spec.chain (Spec.link_transform (- beta) a)
                           (Spec.link_transform (90 - gamma) b))
               (Spec.link_transform 0 c) Spec.local_origin.
Proof.
  unfold wrt_body_contact, frame_03.
  rewrite (get_point_wrt_matmul _ _ _ _ None) by apply affine_link.
  unfold frame_02.
  rewrite (get_point_wrt_matmul _ _ _ _ None) by apply affine_link.
  unfold frame_01 at 1. rewrite get_point_wrt_link.
  unfold Spec.chain. f_equal.
  unfold frame_12. rewrite get_point_wrt_link. f_equal.
  apply get_point_wrt_link.
Qed.

(** ** What a caller reads after a returning [change_pose] *)

Lemma height_app h new i :
  height (h ++ new) (i + length h) = height new i.
Proof.
  unfold height. rewrite lookup_app_r by lia.
  replace (i + length h - length h)%nat with i by lia. reflexivity.
Qed.

(** The scan over new objects does not depend on where the store puts
    them. *)
Lemma lowest_app h new points g :
  lowest (h ++ new) (map (fun i => i + length h)%nat points) (g + length h)
  = (lowest new points g + length h)%nat.
Proof.
  revert g. induction points as [|p rest IH]; intros g; [reflexivity|].
  cbn [map]. rewrite !lowest_cons, !height_app.
  destruct (Rlt_dec (height new p) (height new g)); apply IH.
Qed.

Lemma position_shift j k points :
  position (j + k) (map (fun i => i + k)%nat points) = position j points.
Proof.
  induction points as [|p rest IH]; [reflexivity|].
  cbn [map position]. rewrite IH.
  destruct (decide (p + k = j + k)%nat), (decide (p = j)); (reflexivity || lia).
Qed.

Lemma lookup_app_shift (h new : list Point.t) i :
  (h ++ new) !! (i + length h)%nat = new !! i.
Proof. rewrite lookup_app_r by lia. f_equal. lia. Qed.

(** The view of the state [posed] is a function of the old leg record,
    the angles and the value of the mount point: the addresses of the new
    objects do not show. *)
Lemma observe_posed s alpha beta gamma o oname lname :
  heap s !! Linkage.new_origin (self s) = Some o ->
  let new := pose_points (self s) alpha beta gamma o oname lname in
  let j := lowest new [3; 2; 1; 0]%nat 3%nat in
  observe (posed s alpha beta gamma o oname lname)
  = mkView
      (Linkage.a (self s), Linkage.b (self s), Linkage.c (self s))
      (Some alpha, Some beta, Some gamma)
      (Linkage.coxia_axis (self s))
      (Some o)
      (Linkage.name (self s))
      (Linkage.id (self s))
      (Some (map (fun i => new !! i) [0; 1; 2; 3]%nat))
      (Some (new !! j))
      (Some (position j [0; 1; 2; 3]%nat)).
Proof.
  intros Ho new j. set (n := length (heap s)).
  assert (Hg : lowest (heap s ++ new) (reverse [n; S n; S (S n); S (S (S n))])
                 (S (S (S n))) = (j + n)%nat).
  { exact (lowest_app (heap s) new [3; 2; 1; 0]%nat 3%nat). }
  unfold observe, posed. fold n. fold new.
  cbn [self heap with_angles
       Linkage.set_ground_contact_point Linkage.set_all_points
       Linkage.set_gamma Linkage.set_beta Linkage.set_alpha
       Linkage.a Linkage.b Linkage.c Linkage.alpha Linkage.beta Linkage.gamma
       Linkage.coxia_axis Linkage.new_origin Linkage.name Linkage.id
       Linkage.all_points Linkage.ground_contact_point].
  rewrite Hg. cbn [option_map map].
  f_equal.
  - apply lookup_app_l_Some, Ho.
  - f_equal.
    rewrite <- (lookup_app_shift (heap s) new 0), <- (lookup_app_shift (heap s) new 1),
            <- (lookup_app_shift (heap s) new 2), <- (lookup_app_shift (heap s) new 3).
    reflexivity.
  - f_equal. apply lookup_app_shift.
  - f_equal. exact (position_shift j n [0; 1; 2; 3]%nat).
Qed.

(** ** Ground contact (C1, C5) *)

Lemma posed_is_lowest s alpha beta gamma o oname lname :
  ground_contact_is_lowest (posed s alpha beta gamma o oname lname).
Proof.
  destruct (posed_ground_contact s alpha beta gamma o oname lname)
    as (ps & g & k & Hps & Hg & Hk & Hvalid & Hle & _).
  exists ps, g. repeat split; try assumption.
  - eapply list_elem_of_lookup_2, Hk.
  - rewrite Forall_forall in Hvalid. apply Forall_forall.
    intros p Hp. split; [apply Hvalid, Hp | apply Hle, Hp].
Qed.

(** C1, as amended: when [change_pose] returns, [ground_contact_point] is
    one of the four stored points p0, p1, p2, p3 and no stored point has a
    smaller z.  (Construction ends with [change_pose], see
    [ground_contact_after_init].) *)
Theorem ground_contact_after_change_pose s alpha beta gamma s' :
  change_pose alpha beta gamma s = (Ok tt, s') ->
  ground_contact_is_lowest s'.
Proof.
  intros H. apply change_pose_inv in H as (o & oname & lname & _ & _ & _ & ->).
  apply posed_is_lowest.
Qed.

Lemma ground_contact_after_change_pose_witness :
  change_pose 0 0 0 (blank_leg mount)
  = (Ok tt, neutral_leg)
  /\ ground_contact_is_lowest neutral_leg.
Proof.
  split.
  - exact neutral_leg_posed.
  - exact (ground_contact_after_change_pose _ 0 0 0 _ neutral_leg_posed).
Defined.

(** The same for a leg fresh from its constructor. *)
Lemma ground_contact_after_init a b c alpha beta gamma coxia_axis new_origin
    name id_number h s' :
  __init__ a b c alpha beta gamma coxia_axis new_origin name id_number h
    = (Ok tt, s') ->
  ground_contact_is_lowest s'.
Proof.
  unfold __init__. intros H.
  apply change_pose_inv in H as (o & oname & lname & _ & _ & _ & ->).
  apply posed_is_lowest.
Qed.

Lemma neutral_leg_reachable : reachable neutral_leg.
Proof.
  apply (reach_init 1 1 1 0 0 0 0 0%nat (Some "leg") None [mount]).
  - cbn. lia.
  - exact neutral_leg_posed.
Qed.

Lemma replaced_tip_leg_reachable : reachable replaced_tip_leg.
Proof.
  pose proof (reach_assign _ "p3" 5%nat
                (reach_new_point _ deep_point neutral_leg_reachable)) as H.
  rewrite (assign_point _ [1; 2; 3; 4]%nat "p3" 3%nat) in H
    by (reflexivity || (cbn; lia)).
  apply H.
  - unfold point_keys. rewrite !elem_of_cons. tauto.
  - cbn. lia.
Qed.

(** C1, as stated, fails: after [q = Point(0, 0, -5, "deep"); leg.p3 = q]
    on a neutral leg, [ground_contact_point] is still the former tip
    object, which is no longer in the point set, and the new p3 lies below
    it. *)
Lemma ground_contact_not_invariant :
  reachable replaced_tip_leg
  /\ ~ ground_contact_is_lowest replaced_tip_leg
  /\ Linkage.all_points (self replaced_tip_leg) = Some [1; 2; 3; 5]%nat
  /\ Linkage.ground_contact_point (self replaced_tip_leg) = Some 4%nat
  /\ height (heap replaced_tip_leg) 5 < height (heap replaced_tip_leg) 4.
Proof.
  split; [exact replaced_tip_leg_reachable|]. split; [|split; [|split]].
  - intros (ps & g & Hps & Hg & Hin & _).
    cbn in Hps, Hg. injection Hps as <-. injection Hg as <-.
    rewrite !elem_of_cons, elem_of_nil in Hin. lia.
  - reflexivity.
  - reflexivity.
  - cbv [height lookup list_lookup replaced_tip_leg neutral_leg heap app
         deep_point Point.z]. lra.
Qed.

(** Nor does [update_leg_wrt] recompute it: turned upside down (half a
    turn about the x axis), the neutral leg keeps its tip as ground
    contact, now the highest of the four points. *)
Lemma ground_contact_stale_after_update :
  let s' := snd (update_leg_wrt upside_down 0 neutral_leg) in
  reachable s' /\ ~ ground_contact_is_lowest s'.
Proof.
  cbv zeta. split.
  - apply reach_update_leg_wrt, neutral_leg_reachable.
  - assert (Hvalid : Forall (fun p => p < length (heap neutral_leg))%nat
                       [1; 2; 3; 4]%nat)
      by (repeat constructor; cbn; lia).
    rewrite (update_leg_wrt_updated upside_down 0 neutral_leg _ eq_refl Hvalid).
    intros (ps & g & Hps & Hg & _ & Hall).
    cbn in Hps, Hg. injection Hps as <-. injection Hg as <-.
    apply Forall_cons in Hall as [[_ Hle] _]. revert Hle.
    cbv [snd heap self neutral_leg updated foldl update_object
         lookup list_lookup insert list_insert height].
    matrices. cbv [upside_down]. lra.
Qed.

(** C5, as amended: when [change_pose] returns, [ground_contact_point] is
    a lowest stored point and every stored point nearer to the tip is
    strictly above it.  So among points tied at the least z the one nearest
    to the tip - the first tied point that the scan p3, p2, p1, p0
    reaches - is the ground contact. *)
Theorem ground_contact_prefers_tip s alpha beta gamma s' :
  change_pose alpha beta gamma s = (Ok tt, s') ->
  first_scanned_lowest s'.
Proof.
  intros H. apply change_pose_inv in H as (o & oname & lname & _ & _ & _ & ->).
  destruct (posed_ground_contact s alpha beta gamma o oname lname)
    as (ps & g & k & Hps & Hg & Hk & _ & Hle & Hlt).
  exists ps, g, k. repeat split; try assumption.
  intros j p Hj. apply Hle. eapply list_elem_of_lookup_2, Hj.
Qed.

Lemma ground_contact_prefers_tip_witness :
  change_pose 0 0 90 (blank_leg mount) = (Ok tt, flat_leg)
  /\ first_scanned_lowest flat_leg.
Proof.
  split.
  - exact flat_leg_posed.
  - exact (ground_contact_prefers_tip _ 0 0 90 _ flat_leg_posed).
Defined.

(** C5, as stated, fails: [Linkage(1, 1, 1, gamma=90)] has its four
    points at z = 0, and the ground contact is the tip p3, the first point
    of the scan and not the last. *)
Lemma ground_contact_not_last_scanned :
  change_pose 0 0 90 (blank_leg mount) = (Ok tt, flat_leg)
  /\ tie_at_lowest flat_leg
  /\ ~ last_scanned_lowest flat_leg.
Proof.
  split; [exact flat_leg_posed|]. split.
  - exists [1; 2; 3; 4]%nat, 2%nat, 3%nat, 3%nat, 4%nat.
    repeat split; try reflexivity; try lia.
    repeat constructor; cbv [height lookup list_lookup flat_leg heap Point.z mount]; lra.
  - intros (ps & g & k & Hps & Hg & Hk & _ & Hlt).
    cbn in Hps, Hg. injection Hps as <-. injection Hg as <-.
    do 4 (destruct k as [|k]; [try discriminate Hk|]); [|discriminate Hk].
    specialize (Hlt 0%nat 1%nat eq_refl ltac:(lia)).
    cbv [height lookup list_lookup flat_leg heap Point.z] in Hlt. lra.
Qed.

(** ** Coordinates of the stored points (C2, C3, C6) *)

Lemma mount_of_local_origin theta ox oy :
  Spec.mount_transform theta ox oy Spec.local_origin = (ox, oy, 0).
Proof. matrices. coords_ring. Qed.

(** C2, as amended: when [change_pose] returns, p1, p2 and p3 are the
    body-contact-relative points taken through the mount transform built
    from [coxia_axis + alpha] and [new_origin], under the names of the leg
    with "-coxia", "-femur" and "-tibia" appended; p0 is a copy of
    [new_origin] with "-body-contact" appended to its name.  The local
    origin taken through the mount transform is
    [(new_origin.x, new_origin.y, 0)]: it agrees with p0 in x and y. *)
Theorem stored_points_through_mount s alpha beta gamma s' o :
  change_pose alpha beta gamma s = (Ok tt, s') ->
  heap s !! Linkage.new_origin (self s) = Some o ->
  let l := self s in
  let mount_transform :=
    Spec.mount_transform (Linkage.coxia_axis l + alpha) (Point.x o) (Point.y o) in
  exists v0 v1 v2 v3 oname lname,
    stored_points s' = Some [v0; v1; v2; v3] /\
    Point.name o = Some oname /\
    Linkage.name l = Some lname /\
    v0 = renamed o (oname +:+ "-body-contact") /\
    mount_transform Spec.local_origin = (Point.x o, Point.y o, 0) /\
    coords_of v1
    = mount_transform (coords_of (wrt_body_contact (frame_01 (Linkage.a l) beta))) /\
    coords_of v2
    = mount_transform
        (coords_of (wrt_body_contact
                      (frame_02 (Linkage.a l) (Linkage.b l) beta gamma))) /\
    coords_of v3
    = mount_transform
        (coords_of (wrt_body_contact
                      (frame_03 (Linkage.a l) (Linkage.b l) (Linkage.c l)
                                beta gamma))) /\
    Point.name v1 = Some (lname +:+ "-coxia") /\
    Point.name v2 = Some (lname +:+ "-femur") /\
    Point.name v3 = Some (lname +:+ "-tibia").
Proof.
  intros H Ho l mount_transform.
  apply change_pose_inv in H as (o' & oname & lname & Ho' & Hon & Hln & ->).
  assert (o' = o) as -> by congruence.
  eexists _, _, _, _, oname, lname.
  split; [apply posed_stored|].
  repeat split; try assumption; try reflexivity.
  - apply mount_of_local_origin.
  - apply get_point_wrt_mount.
  - apply get_point_wrt_mount.
  - apply get_point_wrt_mount.
Qed.

Lemma stored_points_through_mount_witness :
  change_pose 0 0 0 (blank_leg raised_mount) = (Ok tt, raised_leg)
  /\ heap (blank_leg raised_mount)
       !! Linkage.new_origin (self (blank_leg raised_mount))
     = Some raised_mount
  /\ exists v0 v1 v2 v3 oname lname,
       stored_points raised_leg = Some [v0; v1; v2; v3] /\
       Point.name raised_mount = Some oname /\
       Linkage.name (self (blank_leg raised_mount)) = Some lname /\
       v0 = renamed raised_mount (oname +:+ "-body-contact") /\
       Spec.mount_transform (0 + 0) 0 0 Spec.local_origin = (0, 0, 0) /\
       coords_of v1
       = Spec.mount_transform (0 + 0) 0 0
           (coords_of (wrt_body_contact (frame_01 1 0))) /\
       coords_of v2
       = Spec.mount_transform (0 + 0) 0 0
           (coords_of (wrt_body_contact (frame_02 1 1 0 0))) /\
       coords_of v3
       = Spec.mount_transform (0 + 0) 0 0
           (coords_of (wrt_body_contact (frame_03 1 1 1 0 0))) /\
       Point.name v1 = Some (lname +:+ "-coxia") /\
       Point.name v2 = Some (lname +:+ "-femur") /\
       Point.name v3 = Some (lname +:+ "-tibia").
Proof.
  split; [exact raised_leg_posed|]. split; [reflexivity|].
  exact (stored_points_through_mount _ 0 0 0 _ raised_mount
           raised_leg_posed eq_refl).
Defined.

(** C2, as stated, fails for p0: with the mount point [Point(0, 0, 1)]
    the stored p0 is [(0, 0, 1)], a copy of the mount point, while the
    local origin taken through the mount transform is [(0, 0, 0)]. *)
Lemma body_contact_not_through_mount :
  change_pose 0 0 0 (blank_leg raised_mount) = (Ok tt, raised_leg)
  /\ ~ all_through_mount (blank_leg raised_mount) 0 0 0 raised_leg.
Proof.
  split; [exact raised_leg_posed|].
  intros (o & Ho & H). cbn in Ho. injection Ho as <-.
  cbv [stored_coords stored_points raised_leg self heap Linkage.all_points
       objects lookup list_lookup option_map map] in H.
  apply (f_equal (fun r => match r with
                           | Some (c :: _) => snd c
                           | _ => 0
                           end)) in H.
  revert H. matrices. cbn [snd]. lra.
Qed.

(** C3: the body-contact-relative points that [change_pose] takes
    through the mount frame are: for p1 the local origin through the link
    transform with Y-rotation [-beta] and X-translation [a]; for p2 the
    local origin through that transform chained with the link transform
    with Y-rotation [90 - gamma] and X-translation [b]; for p3 the local
    origin through the further chain with the link transform with
    Y-rotation 0 and X-translation [c]; and the point they all start from
    is the local origin. *)
Theorem body_contact_relative_points s alpha beta gamma s' o :
  change_pose alpha beta gamma s = (Ok tt, s') ->
  heap s !! Linkage.new_origin (self s) = Some o ->
  let l := self s in
  let link_01 := Spec.link_transform (- beta) (Linkage.a l) in
  let link_12 := Spec.link_transform (90 - gamma) (Linkage.b l) in
  let link_23 := Spec.link_transform 0 (Linkage.c l) in
  exists p0 p1 p2 p3 v0 n1 n2 n3,
    coords_of p0 = Spec.local_origin /\
    coords_of p1 = link_01 (coords_of p0) /\
    coords_of p2 = Spec.chain link_01 link_12 (coords_of p0) /\
    coords_of p3 = Spec.chain (Spec.chain link_01 link_12) link_23 (coords_of p0) /\
    stored_points s'
    = Some [ v0;
             Point.get_point_wrt p1 (new_frame l alpha o) (Some n1);
             Point.get_point_wrt p2 (new_frame l alpha o) (Some n2);
             Point.get_point_wrt p3 (new_frame l alpha o) (Some n3) ].
Proof.
  intros H Ho l link_01 link_12 link_23.
  apply change_pose_inv in H as (o' & oname & lname & Ho' & Hon & Hln & ->).
  assert (o' = o) as -> by congruence.
  exists (Point.unnamed 0 0 0),
         (wrt_body_contact (frame_01 (Linkage.a l) beta)),
         (wrt_body_contact (frame_02 (Linkage.a l) (Linkage.b l) beta gamma)),
         (wrt_body_contact
            (frame_03 (Linkage.a l) (Linkage.b l) (Linkage.c l) beta gamma)).
  eexists _, _, _, _. split; [reflexivity|].
  split; [apply coxia_wrt_body_contact|].
  split; [apply femur_wrt_body_contact|].
  split; [apply tibia_wrt_body_contact|].
  apply posed_stored.
Qed.

Lemma body_contact_relative_points_witness :
  change_pose 0 0 0 (blank_leg mount) = (Ok tt, neutral_leg)
  /\ heap (blank_leg mount) !! Linkage.new_origin (self (blank_leg mount))
     = Some mount
  /\ exists p0 p1 p2 p3 v0 n1 n2 n3,
       coords_of p0 = Spec.local_origin /\
       coords_of p1 = Spec.link_transform (- 0) 1 (coords_of p0) /\
       coords_of p2
       = Spec.chain (Spec.link_transform (- 0) 1)
                    (Spec.link_transform (90 - 0) 1) (coords_of p0) /\
       coords_of p3
       = Spec.chain (Spec.chain (Spec.link_transform (- 0) 1)
                                (Spec.link_transform (90 - 0) 1))
                    (Spec.link_transform 0 1) (coords_of p0) /\
       stored_points neutral_leg
       = Some [ v0;
                Point.get_point_wrt p1 (new_frame (self (blank_leg mount)) 0 mount)
                  (Some n1);
                Point.get_point_wrt p2 (new_frame (self (blank_leg mount)) 0 mount)
                  (Some n2);
                Point.get_point_wrt p3 (new_frame (self (blank_leg mount)) 0 mount)
                  (Some n3) ].
Proof.
  split; [exact neutral_leg_posed|]. split; [reflexivity|].
  exact (body_contact_relative_points _ 0 0 0 _ mount neutral_leg_posed eq_refl).
Defined.

Lemma neutral_pose_points l o oname lname :
  coords_of o = (0, 0, 0) ->
  Linkage.coxia_axis l = 0 ->
  map coords_of (pose_points l 0 0 0 o oname lname)
  = [ (0, 0, 0);
      (Linkage.a l, 0, 0);
      (Linkage.a l + Linkage.b l, 0, 0);
      (Linkage.a l + Linkage.b l, 0, - Linkage.c l) ].
Proof.
  destruct o as [ox oy oz on]. unfold coords_of at 1. intros [= -> -> ->] Hax.
  matrices. rewrite Hax. cbn [map]. right_angles.
  repeat (apply (f_equal2 cons)); try reflexivity; coords_ring.
Qed.

(** The neutral pose, for the constructions that return: a leg
    constructed with [coxia_axis = 0], a mount point at [(0, 0, 0)] and the
    angles at zero has p0 = (0, 0, 0), p1 = (a, 0, 0), p2 = (a + b, 0, 0)
    and p3 = (a + b, 0, -c).  The constructor returns only when the leg
    and the mount point have string names ([change_pose_inv]). *)
Theorem neutral_pose a b c new_origin name id_number h o s' :
  h !! new_origin = Some o ->
  coords_of o = (0, 0, 0) ->
  __init__ a b c 0 0 0 0 new_origin name id_number h = (Ok tt, s') ->
  stored_coords s'
  = Some [ (0, 0, 0); (a, 0, 0); (a + b, 0, 0); (a + b, 0, - c) ].
Proof.
  intros Ho Hzero H. unfold __init__ in H.
  apply change_pose_inv in H as (o' & oname & lname & Ho' & Hon & Hln & ->).
  cbn [heap self Linkage.new_origin] in Ho'.
  assert (o' = o) as -> by congruence.
  unfold stored_coords. rewrite posed_stored. cbn [option_map self].
  rewrite neutral_pose_points by (assumption || reflexivity). reflexivity.
Qed.

Lemma neutral_pose_witness :
  [mount] !! 0%nat = Some mount
  /\ coords_of mount = (0, 0, 0)
  /\ __init__ 1 1 1 0 0 0 0 0%nat (Some "leg") None [mount] = (Ok tt, neutral_leg)
  /\ stored_coords neutral_leg
     = Some [ (0, 0, 0); (1, 0, 0); (1 + 1, 0, 0); (1 + 1, 0, - 1) ].
Proof.
  split; [reflexivity|]. split; [reflexivity|]. split; [exact neutral_leg_posed|].
  exact (neutral_pose 1 1 1 0%nat (Some "leg") None [mount] mount neutral_leg
           eq_refl eq_refl neutral_leg_posed).
Defined.

(** C6 fails on the code: the construction the claim describes - mount
    point [Point(0, 0, 0)] at the origin, [coxia_axis] and the angles at
    zero - computes no points when the mount point has no name or the leg
    has none (the default [name=None]): the constructor raises
    [TypeError], at [p0.name += "-body-contact"] or at
    [self.name + "-coxia"]. *)
Theorem neutral_pose_construction_raises a b c new_origin name id_number h o :
  h !! new_origin = Some o ->
  coords_of o = (0, 0, 0) ->
  Point.name o = None \/ name = None ->
  fst (__init__ a b c 0 0 0 0 new_origin name id_number h) = Raise TypeError /\
  forall s', __init__ a b c 0 0 0 0 new_origin name id_number h <> (Ok tt, s').
Proof.
  intros Ho _ Hnone.
  assert (H : fst (__init__ a b c 0 0 0 0 new_origin name id_number h)
              = Raise TypeError).
  { unfold __init__.
    destruct (Point.name o) as [oname|] eqn:Hon.
    - destruct Hnone as [Hnone | ->]; [discriminate|].
      erewrite change_pose_unnamed_leg;
        [reflexivity | exact Ho | exact Hon | reflexivity].
    - erewrite change_pose_unnamed_origin; [reflexivity | exact Ho | exact Hon]. }
  split; [exact H|].
  intros s' Heq. rewrite Heq in H. discriminate.
Qed.

Lemma neutral_pose_construction_raises_witness :
  [Point.unnamed 0 0 0] !! 0%nat = Some (Point.unnamed 0 0 0)
  /\ coords_of (Point.unnamed 0 0 0) = (0, 0, 0)
  /\ (Point.name (Point.unnamed 0 0 0) = None \/ @None string = None)
  /\ fst (__init__ 1 1 1 0 0 0 0 0%nat None None [Point.unnamed 0 0 0])
     = Raise TypeError
  /\ forall s', __init__ 1 1 1 0 0 0 0 0%nat None None [Point.unnamed 0 0 0]
                <> (Ok tt, s').
Proof.
  split; [reflexivity|]. split; [reflexivity|]. split; [right; reflexivity|].
  exact (neutral_pose_construction_raises 1 1 1 0%nat None None
           [Point.unnamed 0 0 0] (Point.unnamed 0 0 0)
           eq_refl eq_refl (or_intror eq_refl)).
Defined.

(** ** Failure (C4) *)

(** With a named mount point and a named leg the constructor returns. *)
Lemma init_returns a b c alpha beta gamma coxia_axis new_origin lname id_number
    h o oname :
  h !! new_origin = Some o ->
  Point.name o = Some oname ->
  exists s',
    __init__ a b c alpha beta gamma coxia_axis new_origin (Some lname) id_number h
    = (Ok tt, s').
Proof.
  intros Ho Hon. eexists. unfold __init__.
  apply (change_pose_returns _ _ _ _ o oname lname); [exact Ho | exact Hon | reflexivity].
Qed.

(** C4 fails on the code: a construction that leaves [name=None] in
    place raises [TypeError], whatever the other arguments are: at
    [p0.name += "-body-contact"] when the mount point has no name, and
    otherwise at [self.name + "-coxia"]. *)
Theorem init_default_name_raises a b c alpha beta gamma coxia_axis new_origin
    id_number h o :
  h !! new_origin = Some o ->
  fst (__init__ a b c alpha beta gamma coxia_axis new_origin None id_number h)
  = Raise TypeError.
Proof.
  intros Ho. unfold __init__.
  destruct (Point.name o) as [oname|] eqn:Hon.
  - erewrite change_pose_unnamed_leg; [reflexivity | exact Ho | exact Hon | reflexivity].
  - erewrite change_pose_unnamed_origin; [reflexivity | exact Ho | exact Hon].
Qed.

Lemma init_default_name_raises_witness :
  [Point.unnamed 0 0 0] !! 0%nat = Some (Point.unnamed 0 0 0)
  /\ fst (__init__ 1 1 1 0 0 0 0 0%nat None None [Point.unnamed 0 0 0])
     = Raise TypeError.
Proof.
  split; [reflexivity|].
  exact (init_default_name_raises 1 1 1 0 0 0 0 0%nat None
           [Point.unnamed 0 0 0] (Point.unnamed 0 0 0) eq_refl).
Defined.

(** ** What the operations leave unchanged (C10, C8) *)

(** C10: every call of [change_pose], returning or raising, leaves the
    lengths a, b, c, [coxia_axis], [name], [id] and the reference
    [new_origin] as they were, and only adds objects to the store: every
    object that existed keeps its coordinates and its name, the mount
    point among them. *)
Theorem change_pose_frame s alpha beta gamma :
  let s' := snd (change_pose alpha beta gamma s) in
  Linkage.a (self s') = Linkage.a (self s) /\
  Linkage.b (self s') = Linkage.b (self s) /\
  Linkage.c (self s') = Linkage.c (self s) /\
  Linkage.coxia_axis (self s') = Linkage.coxia_axis (self s) /\
  Linkage.name (self s') = Linkage.name (self s) /\
  Linkage.id (self s') = Linkage.id (self s) /\
  Linkage.new_origin (self s') = Linkage.new_origin (self s) /\
  (exists new, heap s' = heap s ++ new) /\
  heap s' !! Linkage.new_origin (self s') = heap s !! Linkage.new_origin (self s).
Proof.
  destruct (heap s !! Linkage.new_origin (self s)) as [o|] eqn:Ho.
  - destruct (Point.name o) as [oname|] eqn:Hon.
    + destruct (Linkage.name (self s)) as [lname|] eqn:Hln.
      * rewrite (change_pose_returns _ _ _ _ _ _ _ Ho Hon Hln). cbn [snd].
        repeat split; try assumption.
        -- eexists. apply posed_heap.
        -- apply posed_lookup_old, Ho.
      * rewrite (change_pose_unnamed_leg _ _ _ _ _ _ Ho Hon Hln). cbn.
        repeat split; try assumption.
        -- eexists. reflexivity.
        -- apply lookup_app_l_Some, Ho.
    + rewrite (change_pose_unnamed_origin _ _ _ _ _ Ho Hon). cbn.
      repeat split; try assumption.
      * eexists. reflexivity.
      * apply lookup_app_l_Some, Ho.
  - rewrite (change_pose_dangling _ _ _ _ Ho). cbn.
    repeat split; try assumption.
    exists []. symmetry. apply app_nil_r.
Qed.

(** ** Named access to the point set (C9) *)

Lemma getattr_point s ps key i p :
  Linkage.all_points (self s) = Some ps ->
  attr_map !! key = Some i ->
  ps !! i = Some p ->
  __getattr__ key s = (Ok p, s).
Proof.
  intros Hps Hkey Hp. unfold __getattr__. rewrite Hkey.
  unfold bind, slot. rewrite Hps, Hp. reflexivity.
Qed.

(** C9: after [leg.p_i = q], reading [leg.p_i] and reading
    [leg.all_points[i]] both give the object [q]; and [coxia_point()],
    [femur_point()], [foot_tip()] and [ground_contact()] return p1, p2, p3
    and [ground_contact_point]. *)
Theorem point_access s p0 p1 p2 p3 g key i q :
  Linkage.all_points (self s) = Some [p0; p1; p2; p3] ->
  Linkage.ground_contact_point (self s) = Some g ->
  (key, i) ∈ [("p0", 0%nat); ("p1", 1%nat); ("p2", 2%nat); ("p3", 3%nat)] ->
  (exists s' ps',
      __setattr__ key q s = (Ok tt, s') /\
      __getattr__ key s' = (Ok q, s') /\
      Linkage.all_points (self s') = Some ps' /\
      ps' !! i = Some q) /\
  coxia_point s = (Ok p1, s) /\
  femur_point s = (Ok p2, s) /\
  foot_tip s = (Ok p3, s) /\
  ground_contact s = (Ok g, s).
Proof.
  intros Hps Hg Hkey. split.
  - assert (Hi : attr_map !! key = Some i /\ (i < 4)%nat).
    { rewrite !elem_of_cons, elem_of_nil in Hkey.
      destruct Hkey as [[= -> ->]|[[= -> ->]|[[= -> ->]|[[= -> ->]|[]]]]];
        (split; [reflexivity | lia]). }
    destruct Hi as [Hi Hlt].
    exists (mkState (heap s)
              (Linkage.set_all_points (<[i := q]> [p0; p1; p2; p3]) (self s))),
           (<[i := q]> [p0; p1; p2; p3]).
    assert (Hq : <[i := q]> [p0; p1; p2; p3] !! i = Some q)
      by (apply list_lookup_insert_eq; cbn; lia).
    split; [apply (assign_point _ _ _ _ _ Hps Hi); cbn; lia|].
    split; [|split; [reflexivity | exact Hq]].
    eapply getattr_point; [reflexivity | exact Hi | exact Hq].
  - repeat split.
    + exact (getattr_point s _ "p1" 1%nat p1 Hps eq_refl eq_refl).
    + exact (getattr_point s _ "p2" 2%nat p2 Hps eq_refl eq_refl).
    + exact (getattr_point s _ "p3" 3%nat p3 Hps eq_refl eq_refl).
    + unfold ground_contact, slot. rewrite Hg. reflexivity.
Qed.

Lemma point_access_witness :
  Linkage.all_points (self neutral_leg) = Some [1; 2; 3; 4]%nat
  /\ Linkage.ground_contact_point (self neutral_leg) = Some 4%nat
  /\ ("p0", 0%nat) ∈ [("p0", 0%nat); ("p1", 1%nat); ("p2", 2%nat); ("p3", 3%nat)]
  /\ (exists s' ps',
         __setattr__ "p0" 0%nat neutral_leg = (Ok tt, s') /\
         __getattr__ "p0" s' = (Ok 0%nat, s') /\
         Linkage.all_points (self s') = Some ps' /\
         ps' !! 0%nat = Some 0%nat)
  /\ coxia_point neutral_leg = (Ok 2%nat, neutral_leg)
  /\ femur_point neutral_leg = (Ok 3%nat, neutral_leg)
  /\ foot_tip neutral_leg = (Ok 4%nat, neutral_leg)
  /\ ground_contact neutral_leg = (Ok 4%nat, neutral_leg).
Proof.
  split; [reflexivity|]. split; [reflexivity|].
  split; [apply list_elem_of_here|].
  exact (point_access neutral_leg 1%nat 2%nat 3%nat 4%nat 4%nat "p0" 0%nat 0%nat
           eq_refl eq_refl (list_elem_of_here _ _)).
Defined.

(** ** Re-expressing the leg in another frame (C8) *)

(** After [change_pose] the stored points are four distinct objects, all
    of them new: none is the mount point. *)
Lemma posed_distinct s alpha beta gamma o oname lname ps :
  heap s !! Linkage.new_origin (self s) = Some o ->
  Linkage.all_points (self (posed s alpha beta gamma o oname lname)) = Some ps ->
  NoDup ps /\
  Linkage.new_origin (self (posed s alpha beta gamma o oname lname)) ∉ ps.
Proof.
  intros Ho Hps. rewrite posed_all_points in Hps. injection Hps as <-.
  apply lookup_lt_Some in Ho. split.
  - apply (NoDup_seq (length (heap s)) 4).
  - cbn [posed self Linkage.new_origin Linkage.set_ground_contact_point
         Linkage.set_all_points with_angles Linkage.set_gamma Linkage.set_beta
         Linkage.set_alpha].
    rewrite !not_elem_of_cons. repeat split; try lia. apply not_elem_of_nil.
Qed.

(** C8, as amended: for a leg whose four stored points are distinct
    objects, none of them the mount point (as they are after construction
    and after [change_pose]), [update_leg_wrt(frame, height)] returns,
    re-expresses the object of each stored point through [frame] with the
    offset [height], and changes nothing else: the leg record keeps its
    angles, lengths, [coxia_axis] and all its references, so
    [ground_contact_point] references the same object as before, and every
    object outside the point set, the mount point among them, is as it
    was. *)
Theorem update_leg_wrt_frame s ps frame height :
  Linkage.all_points (self s) = Some ps ->
  Forall (fun p => p < length (heap s))%nat ps ->
  NoDup ps ->
  Linkage.new_origin (self s) ∉ ps ->
  exists s',
    update_leg_wrt frame height s = (Ok tt, s') /\
    each_point_reframed s frame height s' /\
    length (heap s') = length (heap s) /\
    forall q, q ∉ ps -> heap s' !! q = heap s !! q.
Proof.
  intros Hps Hvalid Hnd Hno.
  exists (mkState (updated frame height (heap s) ps) (self s)).
  split; [apply update_leg_wrt_updated; assumption|].
  split; [|split].
  - split; [reflexivity|]. split.
    + apply updated_outside, Hno.
    + exists ps. split; [assumption|].
      intros p v Hp Hv. apply updated_once; assumption.
  - apply updated_length.
  - intros q Hq. apply updated_outside, Hq.
Qed.

Lemma update_leg_wrt_frame_witness :
  Linkage.all_points (self neutral_leg) = Some [1; 2; 3; 4]%nat
  /\ Forall (fun p => p < length (heap neutral_leg))%nat [1; 2; 3; 4]%nat
  /\ NoDup [1; 2; 3; 4]%nat
  /\ (Linkage.new_origin (self neutral_leg) ∉ [1; 2; 3; 4]%nat)
  /\ exists s',
       update_leg_wrt Frame.identity 1 neutral_leg = (Ok tt, s') /\
       each_point_reframed neutral_leg Frame.identity 1 s' /\
       length (heap s') = length (heap neutral_leg) /\
       forall q, q ∉ [1; 2; 3; 4]%nat -> heap s' !! q = heap neutral_leg !! q.
Proof.
  assert (Hvalid : Forall (fun p => p < length (heap neutral_leg))%nat [1; 2; 3; 4]%nat)
    by (repeat constructor; cbn; lia).
  assert (Hnd : NoDup [1; 2; 3; 4]%nat) by apply (NoDup_seq 1 4).
  assert (Hno : Linkage.new_origin (self neutral_leg) ∉ [1; 2; 3; 4]%nat).
  { cbn. rewrite !not_elem_of_cons. repeat split; try lia. apply not_elem_of_nil. }
  split; [reflexivity|]. split; [exact Hvalid|]. split; [exact Hnd|].
  split; [exact Hno|].
  exact (update_leg_wrt_frame neutral_leg [1; 2; 3; 4]%nat Frame.identity 1
           eq_refl Hvalid Hnd Hno).
Defined.

Lemma aliased_leg_reachable : reachable aliased_leg.
Proof.
  pose proof (reach_assign _ "p0" 5%nat
                (reach_new_point _ deep_point neutral_leg_reachable)) as H0.
  rewrite (assign_point _ [1; 2; 3; 4]%nat "p0" 0%nat) in H0
    by (reflexivity || (cbn; lia)).
  cbn [snd] in H0.
  assert (Hkey : forall k, k ∈ point_keys <-> k ∈ ["p0"; "p1"; "p2"; "p3"])
    by reflexivity.
  assert (H0' : reachable
            (mkState (heap neutral_leg ++ [deep_point])
               (Linkage.set_all_points [5; 2; 3; 4]%nat (self neutral_leg)))).
  { apply H0; [rewrite Hkey, !elem_of_cons; tauto | cbn; lia]. }
  pose proof (reach_assign _ "p1" 5%nat H0') as H1.
  rewrite (assign_point _ [5; 2; 3; 4]%nat "p1" 1%nat) in H1
    by (reflexivity || (cbn; lia)).
  apply H1; [rewrite Hkey, !elem_of_cons; tauto | cbn; lia].
Qed.

(** The mount point itself can be stored: after
    [leg.p0 = leg.new_origin] the loop of [update_leg_wrt] moves it. *)
Lemma stored_mount_point_moves :
  let s := snd (__setattr__ "p0" 0%nat neutral_leg) in
  let s' := snd (update_leg_wrt Frame.identity 1 s) in
  reachable s
  /\ option_map Point.z (heap s !! Linkage.new_origin (self s)) = Some 0
  /\ option_map Point.z (heap s' !! Linkage.new_origin (self s')) = Some (0 + 1).
Proof.
  cbv zeta. split; [|split].
  - apply reach_assign; [apply neutral_leg_reachable | | cbn; lia].
    apply list_elem_of_here.
  - reflexivity.
  - rewrite (assign_point neutral_leg [1; 2; 3; 4]%nat "p0" 0%nat)
      by (reflexivity || (cbn; lia)).
    cbn [snd].
    erewrite update_leg_wrt_updated;
      [| reflexivity | repeat constructor; cbn; lia].
    cbv [snd heap self neutral_leg updated foldl update_object
         lookup list_lookup insert list_insert option_map
         Linkage.set_all_points Linkage.new_origin].
    matrices. cbv [mount]. f_equal. lra.
Qed.

(** C8, as stated, fails: after [leg.p0 = q; leg.p1 = q] two entries of
    the point set are one object, which the loop of [update_leg_wrt]
    updates twice.  With the identity frame and height 1 the point
    [(0, 0, -5)] ends at z = -3, not at z = -4. *)
Lemma aliased_point_reframed_twice :
  reachable aliased_leg
  /\ fst (update_leg_wrt Frame.identity 1 aliased_leg) = Ok tt
  /\ ~ each_point_reframed aliased_leg Frame.identity 1
         (snd (update_leg_wrt Frame.identity 1 aliased_leg)).
Proof.
  split; [exact aliased_leg_reachable|].
  assert (Hvalid : Forall (fun p => p < length (heap aliased_leg))%nat [5; 5; 3; 4]%nat)
    by (repeat constructor; cbn; lia).
  rewrite (update_leg_wrt_updated Frame.identity 1 aliased_leg _ eq_refl Hvalid).
  split; [reflexivity|].
  intros (_ & _ & ps & Hps & H). cbn in Hps. injection Hps as <-.
  specialize (H 5%nat deep_point (list_elem_of_here _ _) eq_refl).
  cbv [snd heap self aliased_leg neutral_leg app updated foldl update_object
       lookup list_lookup insert list_insert] in H.
  injection H as _ _ Hz. revert Hz. matrices.
  cbn [deep_point]. lra.
Qed.

(** ** Idempotence (C7) *)

(** C7: [change_pose(alpha, beta, gamma)] called twice in succession
    ends as the single call does - it returns or raises the same - and
    leaves the same leg to read: the same angles, the same coordinates and
    names of the four points, the same ground contact point at the same
    position of the point set, and the same lengths, axis, names and mount
    point. *)
Theorem change_pose_idempotent s alpha beta gamma :
  let once := change_pose alpha beta gamma s in
  let twice := (change_pose alpha beta gamma ;; change_pose alpha beta gamma) s in
  fst twice = fst once /\ observe (snd twice) = observe (snd once).
Proof.
  cbv zeta.
  destruct (heap s !! Linkage.new_origin (self s)) as [o|] eqn:Ho.
  - destruct (Point.name o) as [oname|] eqn:Hon.
    + destruct (Linkage.name (self s)) as [lname|] eqn:Hln.
      * pose proof (change_pose_returns _ alpha beta gamma _ _ _ Ho Hon Hln) as H1.
        rewrite (bind_ok _ _ _ _ _ H1), H1.
        set (s1 := posed s alpha beta gamma o oname lname).
        assert (Ho1 : heap s1 !! Linkage.new_origin (self s1) = Some o)
          by apply posed_lookup_old, Ho.
        rewrite (change_pose_returns s1 alpha beta gamma _ _ _ Ho1 Hon Hln).
        split; [reflexivity|]. cbn [snd].
        rewrite (observe_posed s1 _ _ _ _ _ _ Ho1).
        unfold s1. rewrite (observe_posed s _ _ _ _ _ _ Ho).
        reflexivity.
      * pose proof (change_pose_unnamed_leg _ alpha beta gamma _ _ Ho Hon Hln) as H1.
        rewrite (bind_raise _ _ _ _ _ H1), H1. split; reflexivity.
    + pose proof (change_pose_unnamed_origin _ alpha beta gamma _ Ho Hon) as H1.
      rewrite (bind_raise _ _ _ _ _ H1), H1. split; reflexivity.
  - pose proof (change_pose_dangling _ alpha beta gamma Ho) as H1.
    rewrite (bind_raise _ _ _ _ _ H1), H1. split; reflexivity.
Qed.

(** * Further properties of the leg *)

(** ** The invariant of a constructed leg *)

Lemma with_angles_set s alpha beta gamma o oname lname :
  angles_set (posed s alpha beta gamma o oname lname).
Proof. repeat split; eexists; reflexivity. Qed.

(** X1: every state that construction, [change_pose], [update_leg_wrt]
    and assignments to p0 .. p3 produce is well formed - four stored
    points, every reference to an existing object, both names strings -
    and has its three angles assigned. *)
Theorem reachable_invariant s :
  reachable s -> well_formed s /\ angles_set s.
Proof.
  intros Hr. split; [apply reachable_well_formed, Hr|].
  induction Hr as
    [a b c alpha beta gamma ax no name idn h s Hno Hinit
    | s v Hr IH | s alpha beta gamma Hr IH | s frame height Hr IH
    | s key q Hr IH Hkey Hq].
  - unfold __init__ in Hinit.
    apply change_pose_inv in Hinit as (o & oname & lname & _ & _ & _ & ->).
    apply with_angles_set.
  - exact IH.
  - destruct (well_formed_change_pose s alpha beta gamma
                (reachable_well_formed s Hr))
      as (o & oname & lname & _ & _ & _ & ->).
    apply with_angles_set.
  - destruct (reachable_well_formed s Hr)
      as (ps & g & o & Hps & _ & Hvalid & _).
    rewrite (update_leg_wrt_updated frame height _ _ Hps Hvalid). exact IH.
  - destruct (reachable_well_formed s Hr)
      as (ps & g & o & Hps & Hlen & _).
    destruct (point_keys_attr_map key Hkey) as (i & Hi & Hi4).
    rewrite (assign_point _ ps key i q Hps Hi) by lia. exact IH.
Qed.

Lemma reachable_invariant_witness :
  reachable neutral_leg /\ well_formed neutral_leg /\ angles_set neutral_leg.
Proof.
  split; [exact neutral_leg_reachable|].
  exact (reachable_invariant neutral_leg neutral_leg_reachable).
Defined.

(** X2: on a constructed leg no public operation raises: [change_pose]
    returns for all angles, [update_leg_wrt] for every frame and height,
    and an assignment to p0, p1, p2 or p3 for every point. *)
Theorem reachable_operations_return s :
  reachable s ->
  (forall alpha beta gamma, fst (change_pose alpha beta gamma s) = Ok tt) /\
  (forall frame height, fst (update_leg_wrt frame height s) = Ok tt) /\
  (forall key q, key ∈ point_keys -> fst (__setattr__ key q s) = Ok tt).
Proof.
  intros Hr. pose proof (reachable_well_formed s Hr) as Hwf.
  split; [|split].
  - intros alpha beta gamma.
    destruct (well_formed_change_pose s alpha beta gamma Hwf)
      as (o & oname & lname & _ & _ & _ & ->). reflexivity.
  - intros frame height.
    destruct Hwf as (ps & g & o & Hps & _ & Hvalid & _).
    rewrite (update_leg_wrt_updated frame height _ _ Hps Hvalid). reflexivity.
  - intros key q Hkey.
    destruct Hwf as (ps & g & o & Hps & Hlen & _).
    destruct (point_keys_attr_map key Hkey) as (i & Hi & Hi4).
    rewrite (assign_point _ ps key i q Hps Hi) by lia. reflexivity.
Qed.

Lemma reachable_operations_return_witness :
  reachable neutral_leg
  /\ (forall alpha beta gamma, fst (change_pose alpha beta gamma neutral_leg) = Ok tt)
  /\ (forall frame height, fst (update_leg_wrt frame height neutral_leg) = Ok tt)
  /\ (forall key q, key ∈ point_keys -> fst (__setattr__ key q neutral_leg) = Ok tt).
Proof.
  split; [exact neutral_leg_reachable|].
  exact (reachable_operations_return neutral_leg neutral_leg_reachable).
Defined.

(** ** Computing the ground contact on any leg *)

Lemma four_points_tip (ps : list addr) :
  length ps = 4%nat -> exists tip, ps !! 3%nat = Some tip /\ last ps = Some tip.
Proof.
  destruct ps as [|p0 [|p1 [|p2 [|p3 [|p4 rest]]]]]; try discriminate.
  intros _. exists p3. split; reflexivity.
Qed.

(** X3: [compute_ground_contact] on a leg with four stored points reads
    only: it leaves the leg and the store as they are - it does not assign
    [ground_contact_point] - and returns a stored point that no stored
    point is below and that every stored point nearer to the tip is
    strictly above.  This holds for whatever points are stored, not only
    after [change_pose]. *)
Theorem compute_ground_contact_lowest s ps :
  Linkage.all_points (self s) = Some ps ->
  length ps = 4%nat ->
  Forall (fun p => p < length (heap s))%nat ps ->
  exists g k,
    compute_ground_contact s = (Ok g, s) /\
    ps !! k = Some g /\
    (forall p, p ∈ ps -> height (heap s) g <= height (heap s) p) /\
    (forall j p, ps !! j = Some p -> (k < j)%nat ->
                 height (heap s) g < height (heap s) p).
Proof.
  intros Hps Hlen Hvalid.
  destruct (four_points_tip ps Hlen) as (tip & Htip & Hlast).
  destruct (lowest_reverse (heap s) ps tip Hlast) as (k & Hk & Hle & Hlt).
  exists (lowest (heap s) (reverse ps) tip), k.
  split; [apply compute_ground_contact_ok; assumption|].
  repeat split; assumption.
Qed.

Lemma compute_ground_contact_lowest_witness :
  Linkage.all_points (self aliased_leg) = Some [5; 5; 3; 4]%nat
  /\ length [5; 5; 3; 4]%nat = 4%nat
  /\ Forall (fun p => p < length (heap aliased_leg))%nat [5; 5; 3; 4]%nat
  /\ exists g k,
       compute_ground_contact aliased_leg = (Ok g, aliased_leg) /\
       [5; 5; 3; 4]%nat !! k = Some g /\
       (forall p, p ∈ [5; 5; 3; 4]%nat ->
                  height (heap aliased_leg) g <= height (heap aliased_leg) p) /\
       (forall j p, [5; 5; 3; 4]%nat !! j = Some p -> (k < j)%nat ->
                    height (heap aliased_leg) g < height (heap aliased_leg) p).
Proof.
  assert (Hvalid : Forall (fun p => p < length (heap aliased_leg))%nat
                     [5; 5; 3; 4]%nat)
    by (repeat constructor; cbn; lia).
  split; [reflexivity|]. split; [reflexivity|]. split; [exact Hvalid|].
  exact (compute_ground_contact_lowest aliased_leg [5; 5; 3; 4]%nat
           eq_refl eq_refl Hvalid).
Defined.

(** X4: [leg.ground_contact_point = leg.compute_ground_contact()]
    returns on every leg with four stored points and makes
    [ground_contact_point] a lowest stored point again, whatever
    [update_leg_wrt] or assignments did before; the store and the point
    set are not touched. *)
Theorem refresh_ground_contact_lowest s ps :
  Linkage.all_points (self s) = Some ps ->
  length ps = 4%nat ->
  Forall (fun p => p < length (heap s))%nat ps ->
  exists s',
    refresh_ground_contact s = (Ok tt, s') /\
    ground_contact_is_lowest s' /\
    heap s' = heap s /\
    Linkage.all_points (self s') = Some ps.
Proof.
  intros Hps Hlen Hvalid.
  destruct (four_points_tip ps Hlen) as (tip & Htip & Hlast).
  destruct (lowest_reverse (heap s) ps tip Hlast) as (k & Hk & Hle & _).
  set (g := lowest (heap s) (reverse ps) tip) in *.
  exists (mkState (heap s) (Linkage.set_ground_contact_point g (self s))).
  split; [|split; [|split]].
  - unfold refresh_ground_contact.
    rewrite (bind_ok _ _ _ _ _ (compute_ground_contact_ok s ps tip Hps Htip Hvalid)).
    reflexivity.
  - exists ps, g. cbn [heap self]. repeat split.
    + exact Hps.
    + eapply list_elem_of_lookup_2, Hk.
    + rewrite Forall_forall in Hvalid. apply Forall_forall.
      intros p Hp. split; [apply Hvalid, Hp | apply Hle, Hp].
  - reflexivity.
  - exact Hps.
Qed.

Lemma refresh_ground_contact_lowest_witness :
  Linkage.all_points (self replaced_tip_leg) = Some [1; 2; 3; 5]%nat
  /\ length [1; 2; 3; 5]%nat = 4%nat
  /\ Forall (fun p => p < length (heap replaced_tip_leg))%nat [1; 2; 3; 5]%nat
  /\ exists s',
       refresh_ground_contact replaced_tip_leg = (Ok tt, s') /\
       ground_contact_is_lowest s' /\
       heap s' = heap replaced_tip_leg /\
       Linkage.all_points (self s') = Some [1; 2; 3; 5]%nat.
Proof.
  assert (Hvalid : Forall (fun p => p < length (heap replaced_tip_leg))%nat
                     [1; 2; 3; 5]%nat)
    by (repeat constructor; cbn; lia).
  split; [reflexivity|]. split; [reflexivity|]. split; [exact Hvalid|].
  exact (refresh_ground_contact_lowest replaced_tip_leg [1; 2; 3; 5]%nat
           eq_refl eq_refl Hvalid).
Defined.

(** Before [all_points] is assigned the scan raises [AttributeError]. *)
Lemma compute_ground_contact_unset s :
  Linkage.all_points (self s) = None ->
  compute_ground_contact s = (Raise AttributeError, s).
Proof.
  intros Hps. unfold compute_ground_contact, __getattr__.
  change (attr_map !! "p3") with (Some 3%nat).
  unfold bind, slot. rewrite Hps. reflexivity.
Qed.

(** X5: with fewer than four stored points [compute_ground_contact]
    raises [IndexError], at [self.p3], and leaves the leg as it is. *)
Theorem compute_ground_contact_raises s ps :
  Linkage.all_points (self s) = Some ps ->
  (length ps < 4)%nat ->
  compute_ground_contact s = (Raise IndexError, s).
Proof.
  intros Hps Hlen. unfold compute_ground_contact, __getattr__.
  change (attr_map !! "p3") with (Some 3%nat).
  unfold bind, slot. rewrite Hps.
  rewrite (lookup_ge_None_2 ps 3) by lia. reflexivity.
Qed.

Lemma compute_ground_contact_raises_witness :
  Linkage.all_points (self short_leg) = Some [1; 2; 3]%nat
  /\ (length [1; 2; 3]%nat < 4)%nat
  /\ compute_ground_contact short_leg = (Raise IndexError, short_leg).
Proof.
  split; [reflexivity|]. split; [cbn; lia|].
  exact (compute_ground_contact_raises short_leg [1; 2; 3]%nat eq_refl
           ltac:(cbn; lia)).
Defined.

(** ** Re-expressing the leg, in general *)

Section ReframeMore.

Variable frame : Frame.t.
Variable height : R.

Lemma updated_occurrences points h p v :
  h !! p = Some v ->
  updated frame height h points !! p
  = Some (Nat.iter (occurrences p points)
            (fun v => Point.update_point_wrt v frame height) v).
Proof.
  revert h v. induction points as [|p' rest IH]; intros h v Hv.
  - exact Hv.
  - rewrite updated_cons. unfold occurrences in *.
    destruct (Nat.eq_dec p' p) as [->|Hne].
    + rewrite count_occ_cons_eq by reflexivity.
      rewrite (IH _ _ (update_object_same frame height _ _ _ Hv)).
      rewrite Nat.iter_succ_r. reflexivity.
    + rewrite count_occ_cons_neq by assumption.
      apply IH. rewrite update_object_other by assumption. exact Hv.
Qed.

(** X6: [update_leg_wrt(frame, height)] on a leg whose references all
    exist returns, keeps the leg record, and re-expresses every object as
    many times as the point set references it: once for a point stored
    once, twice for one stored in two entries, not at all for an object
    that is not stored. *)
Theorem update_leg_wrt_occurrences s ps p v :
  Linkage.all_points (self s) = Some ps ->
  Forall (fun p => p < length (heap s))%nat ps ->
  heap s !! p = Some v ->
  exists s',
    update_leg_wrt frame height s = (Ok tt, s') /\
    self s' = self s /\
    length (heap s') = length (heap s) /\
    heap s' !! p
    = Some (Nat.iter (occurrences p ps)
              (fun v => Point.update_point_wrt v frame height) v).
Proof.
  intros Hps Hvalid Hv.
  exists (mkState (updated frame height (heap s) ps) (self s)).
  split; [apply update_leg_wrt_updated; assumption|].
  split; [reflexivity|]. split; [apply updated_length|].
  apply updated_occurrences, Hv.
Qed.

End ReframeMore.

Lemma update_leg_wrt_occurrences_witness :
  Linkage.all_points (self aliased_leg) = Some [5; 5; 3; 4]%nat
  /\ Forall (fun p => p < length (heap aliased_leg))%nat [5; 5; 3; 4]%nat
  /\ heap aliased_leg !! 5%nat = Some deep_point
  /\ exists s',
       update_leg_wrt Frame.identity 1 aliased_leg = (Ok tt, s') /\
       self s' = self aliased_leg /\
       length (heap s') = length (heap aliased_leg) /\
       heap s' !! 5%nat
       = Some (Nat.iter (occurrences 5 [5; 5; 3; 4]%nat)
                 (fun v => Point.update_point_wrt v Frame.identity 1) deep_point).
Proof.
  assert (Hvalid : Forall (fun p => p < length (heap aliased_leg))%nat
                     [5; 5; 3; 4]%nat)
    by (repeat constructor; cbn; lia).
  split; [reflexivity|]. split; [exact Hvalid|]. split; [reflexivity|].
  exact (update_leg_wrt_occurrences Frame.identity 1 aliased_leg
           [5; 5; 3; 4]%nat 5%nat deep_point eq_refl Hvalid eq_refl).
Defined.

Lemma update_point_wrt_identity v :
  Point.update_point_wrt v Frame.identity 0 = v.
Proof.
  destruct v as [x y z n]. matrices. f_equal; ring.
Qed.

Lemma updated_identity points h :
  updated Frame.identity 0 h points = h.
Proof.
  revert h. induction points as [|p rest IH]; intros h; [reflexivity|].
  rewrite updated_cons.
  replace (update_object Frame.identity 0 h p) with h; [apply IH|].
  unfold update_object. destruct (h !! p) as [v|] eqn:Hv; [|reflexivity].
  rewrite update_point_wrt_identity. symmetry. apply list_insert_id, Hv.
Qed.

(** X7: re-expressing a leg through the identity frame with height 0
    changes nothing, also when stored points are aliased. *)
Theorem update_leg_wrt_identity s ps :
  Linkage.all_points (self s) = Some ps ->
  Forall (fun p => p < length (heap s))%nat ps ->
  update_leg_wrt Frame.identity 0 s = (Ok tt, s).
Proof.
  intros Hps Hvalid.
  rewrite (update_leg_wrt_updated Frame.identity 0 _ _ Hps Hvalid).
  rewrite updated_identity. destruct s. reflexivity.
Qed.

Lemma update_leg_wrt_identity_witness :
  Linkage.all_points (self aliased_leg) = Some [5; 5; 3; 4]%nat
  /\ Forall (fun p => p < length (heap aliased_leg))%nat [5; 5; 3; 4]%nat
  /\ update_leg_wrt Frame.identity 0 aliased_leg = (Ok tt, aliased_leg).
Proof.
  assert (Hvalid : Forall (fun p => p < length (heap aliased_leg))%nat
                     [5; 5; 3; 4]%nat)
    by (repeat constructor; cbn; lia).
  split; [reflexivity|]. split; [exact Hvalid|].
  exact (update_leg_wrt_identity aliased_leg [5; 5; 3; 4]%nat eq_refl Hvalid).
Defined.

Lemma update_point_wrt_compose v f1 f2 h :
  affine f1 ->
  Point.update_point_wrt (Point.update_point_wrt v f1 0) f2 h
  = Point.update_point_wrt v (Frame.matmul f2 f1) h.
Proof.
  unfold affine. destruct v as [x y z n], f1 as [a0 a1 a2 a3], f2 as [b0 b1 b2 b3].
  destruct a0, a1, a2, b0, b1, b2, b3. cbn. intros ->.
  matrices. f_equal; ring.
Qed.

(** X8: for a leg whose stored points are distinct objects,
    re-expressing through [f1] (a rotation with a translation, height 0)
    and then through [f2] with a height is re-expressing once through the
    product [np.matmul(f2, f1)] with that height. *)
Theorem update_leg_wrt_compose s ps f1 f2 h :
  Linkage.all_points (self s) = Some ps ->
  Forall (fun p => p < length (heap s))%nat ps ->
  NoDup ps ->
  affine f1 ->
  (update_leg_wrt f1 0 ;; update_leg_wrt f2 h) s
  = update_leg_wrt (Frame.matmul f2 f1) h s.
Proof.
  intros Hps Hvalid Hnd Haff.
  rewrite (bind_ok _ _ _ _ _ (update_leg_wrt_updated f1 0 _ _ Hps Hvalid)).
  rewrite (update_leg_wrt_updated f2 h (mkState _ (self s)) ps Hps)
    by (cbn [heap]; rewrite updated_length; exact Hvalid).
  rewrite (update_leg_wrt_updated (Frame.matmul f2 f1) h _ _ Hps Hvalid).
  cbn [heap self]. f_equal. f_equal. apply list_eq. intros i.
  destruct (decide (i ∈ ps)) as [Hin|Hout].
  - rewrite Forall_forall in Hvalid.
    destruct (lookup_lt_is_Some_2 _ _ (Hvalid i Hin)) as [v Hv].
    rewrite (updated_once f2 h ps _ i _ Hnd Hin
               (updated_once f1 0 ps _ i v Hnd Hin Hv)).
    rewrite (updated_once _ h ps _ i v Hnd Hin Hv).
    rewrite update_point_wrt_compose by assumption. reflexivity.
  - rewrite !updated_outside by assumption. reflexivity.
Qed.

Lemma update_leg_wrt_compose_witness :
  Linkage.all_points (self neutral_leg) = Some [1; 2; 3; 4]%nat
  /\ Forall (fun p => p < length (heap neutral_leg))%nat [1; 2; 3; 4]%nat
  /\ NoDup [1; 2; 3; 4]%nat
  /\ affine quarter_turn
  /\ (update_leg_wrt quarter_turn 0 ;; update_leg_wrt shift_x 1) neutral_leg
     = update_leg_wrt (Frame.matmul shift_x quarter_turn) 1 neutral_leg.
Proof.
  assert (Hvalid : Forall (fun p => p < length (heap neutral_leg))%nat
                     [1; 2; 3; 4]%nat)
    by (repeat constructor; cbn; lia).
  assert (Hnd : NoDup [1; 2; 3; 4]%nat) by apply (NoDup_seq 1 4).
  split; [reflexivity|]. split; [exact Hvalid|]. split; [exact Hnd|].
  split; [reflexivity|].
  exact (update_leg_wrt_compose neutral_leg [1; 2; 3; 4]%nat quarter_turn
           shift_x 1 eq_refl Hvalid Hnd eq_refl).
Defined.

Lemma neutral_leg_lowest : ground_contact_is_lowest neutral_leg.
Proof.
  destruct (change_pose_inv _ _ _ _ _ neutral_leg_posed)
    as (o & oname & lname & _ & _ & _ & ->).
  apply posed_is_lowest.
Qed.

Lemma height_updated_level frame t offset ps h p :
  level frame t ->
  NoDup ps -> p ∈ ps -> (p < length h)%nat ->
  height (updated frame offset h ps) p = height h p + t + offset.
Proof.
  intros Hlevel Hnd Hin Hp.
  destruct (lookup_lt_is_Some_2 _ _ Hp) as [v Hv].
  unfold height. rewrite (updated_once frame offset ps h p v Hnd Hin Hv), Hv.
  unfold level in Hlevel. destruct frame as [r0 r1 r2 r3]. cbn in Hlevel. subst r2.
  destruct v as [x y z n]. matrices. ring.
Qed.

(** X9: a frame that turns about the z axis and translates, with any
    height offset, raises or lowers all points of a leg alike: if the
    stored points are distinct objects and [ground_contact_point] was a
    lowest stored point, it still is after [update_leg_wrt]. *)
Theorem update_leg_wrt_level_keeps_lowest s ps frame t height :
  Linkage.all_points (self s) = Some ps ->
  NoDup ps ->
  level frame t ->
  ground_contact_is_lowest s ->
  ground_contact_is_lowest (snd (update_leg_wrt frame height s)).
Proof.
  intros Hps Hnd Hlevel (ps' & g & Hps' & Hg & Hin & Hall).
  assert (ps' = ps) as -> by congruence.
  assert (Hvalid : Forall (fun p => p < length (heap s))%nat ps)
    by (eapply Forall_impl; [exact Hall | cbn; tauto]).
  rewrite (update_leg_wrt_updated frame height _ _ Hps Hvalid). cbn [snd].
  exists ps, g. cbn [heap self]. repeat split; try assumption.
  rewrite Forall_forall in Hall, Hvalid. apply Forall_forall. intros p Hp.
  rewrite updated_length. split; [apply Hvalid, Hp|].
  rewrite !(height_updated_level frame t height ps) by auto.
  destruct (Hall p Hp) as [_ Hle]. lra.
Qed.

Lemma update_leg_wrt_level_keeps_lowest_witness :
  Linkage.all_points (self neutral_leg) = Some [1; 2; 3; 4]%nat
  /\ NoDup [1; 2; 3; 4]%nat
  /\ level quarter_turn 0
  /\ ground_contact_is_lowest neutral_leg
  /\ ground_contact_is_lowest (snd (update_leg_wrt quarter_turn 1 neutral_leg)).
Proof.
  assert (Hnd : NoDup [1; 2; 3; 4]%nat) by apply (NoDup_seq 1 4).
  assert (Hlow : ground_contact_is_lowest neutral_leg)
    by exact neutral_leg_lowest.
  split; [reflexivity|]. split; [exact Hnd|]. split; [reflexivity|].
  split; [exact Hlow|].
  exact (update_leg_wrt_level_keeps_lowest neutral_leg [1; 2; 3; 4]%nat
           quarter_turn 0 1 eq_refl Hnd eq_refl Hlow).
Defined.

(** ** What [change_pose] builds *)

(** X10: a returning [change_pose] stores four new objects: they are
    pairwise distinct, none of them existed before the call - so none is
    the mount point or a point the leg stored before - and every object
    that existed is left as it was. *)
Theorem change_pose_fresh_points s alpha beta gamma s' :
  change_pose alpha beta gamma s = (Ok tt, s') ->
  exists ps,
    Linkage.all_points (self s') = Some ps /\
    length ps = 4%nat /\
    NoDup ps /\
    Forall (fun p => length (heap s) <= p < length (heap s'))%nat ps /\
    (Linkage.new_origin (self s') ∉ ps) /\
    (forall p v, heap s !! p = Some v -> heap s' !! p = Some v).
Proof.
  intros H. apply change_pose_inv in H as (o & oname & lname & Ho & _ & _ & ->).
  eexists. split; [apply posed_all_points|].
  destruct (posed_distinct s alpha beta gamma o oname lname _ Ho
              (posed_all_points _ _ _ _ _ _ _)) as [Hnd Hno].
  split; [reflexivity|]. split; [exact Hnd|]. split; [|split; [exact Hno|]].
  - rewrite posed_length. repeat constructor; lia.
  - intros p v Hv. apply posed_lookup_old, Hv.
Qed.

Lemma change_pose_fresh_points_witness :
  change_pose 0 0 0 aliased_leg
  = (Ok tt, posed aliased_leg 0 0 0 mount "mount" "leg")
  /\ exists ps,
       Linkage.all_points (self (posed aliased_leg 0 0 0 mount "mount" "leg"))
       = Some ps /\
       length ps = 4%nat /\
       NoDup ps /\
       Forall (fun p => length (heap aliased_leg) <= p
                        < length (heap (posed aliased_leg 0 0 0 mount "mount" "leg")))%nat
              ps /\
       (Linkage.new_origin (self (posed aliased_leg 0 0 0 mount "mount" "leg")) ∉ ps) /\
       (forall p v, heap aliased_leg !! p = Some v ->
                    heap (posed aliased_leg 0 0 0 mount "mount" "leg") !! p = Some v).
Proof.
  assert (H : change_pose 0 0 0 aliased_leg
              = (Ok tt, posed aliased_leg 0 0 0 mount "mount" "leg"))
    by (apply change_pose_returns; reflexivity).
  split; [exact H|].
  exact (change_pose_fresh_points aliased_leg 0 0 0 _ H).
Defined.

(** X11: [change_pose] recomputes from scratch.  What it leaves to read
    depends only on the angles given, the lengths, [coxia_axis], the two
    names, [id] and the value of the mount point: two legs that agree on
    these read the same after the call, whatever points, ground contact
    and angles they held before. *)
Theorem change_pose_from_scratch s1 s2 alpha beta gamma s1' :
  Linkage.a (self s1) = Linkage.a (self s2) ->
  Linkage.b (self s1) = Linkage.b (self s2) ->
  Linkage.c (self s1) = Linkage.c (self s2) ->
  Linkage.coxia_axis (self s1) = Linkage.coxia_axis (self s2) ->
  Linkage.name (self s1) = Linkage.name (self s2) ->
  Linkage.id (self s1) = Linkage.id (self s2) ->
  heap s1 !! Linkage.new_origin (self s1) = heap s2 !! Linkage.new_origin (self s2) ->
  change_pose alpha beta gamma s1 = (Ok tt, s1') ->
  exists s2',
    change_pose alpha beta gamma s2 = (Ok tt, s2') /\
    observe s2' = observe s1'.
Proof.
  intros Ha Hb Hc Hax Hname Hid Horigin H.
  apply change_pose_inv in H as (o & oname & lname & Ho & Hon & Hln & ->).
  assert (Ho2 : heap s2 !! Linkage.new_origin (self s2) = Some o) by congruence.
  assert (Hln2 : Linkage.name (self s2) = Some lname) by congruence.
  eexists. split; [apply (change_pose_returns _ _ _ _ _ _ _ Ho2 Hon Hln2)|].
  rewrite (observe_posed s2 _ _ _ _ _ _ Ho2), (observe_posed s1 _ _ _ _ _ _ Ho).
  unfold pose_points, new_frame.
  rewrite Ha, Hb, Hc, Hax, Hname, Hid. reflexivity.
Qed.

Lemma change_pose_from_scratch_witness :
  Linkage.a (self (blank_leg mount)) = Linkage.a (self aliased_leg)
  /\ Linkage.b (self (blank_leg mount)) = Linkage.b (self aliased_leg)
  /\ Linkage.c (self (blank_leg mount)) = Linkage.c (self aliased_leg)
  /\ Linkage.coxia_axis (self (blank_leg mount)) = Linkage.coxia_axis (self aliased_leg)
  /\ Linkage.name (self (blank_leg mount)) = Linkage.name (self aliased_leg)
  /\ Linkage.id (self (blank_leg mount)) = Linkage.id (self aliased_leg)
  /\ heap (blank_leg mount) !! Linkage.new_origin (self (blank_leg mount))
     = heap aliased_leg !! Linkage.new_origin (self aliased_leg)
  /\ change_pose 0 0 0 (blank_leg mount) = (Ok tt, neutral_leg)
  /\ exists s2',
       change_pose 0 0 0 aliased_leg = (Ok tt, s2') /\
       observe s2' = observe neutral_leg.
Proof.
  repeat (split; [reflexivity|]).
  split; [exact neutral_leg_posed|].
  exact (change_pose_from_scratch (blank_leg mount) aliased_leg 0 0 0 neutral_leg
           eq_refl eq_refl eq_refl eq_refl eq_refl eq_refl eq_refl
           neutral_leg_posed).
Defined.

(** X12: [change_pose] is not atomic.  When it raises, the three angles
    have already been overwritten with the new values, while the point
    set and [ground_contact_point] are still the old ones; no object that
    existed was changed. *)
Theorem change_pose_raise_keeps_points s alpha beta gamma e s' :
  change_pose alpha beta gamma s = (Raise e, s') ->
  Linkage.alpha (self s') = Some alpha /\
  Linkage.beta (self s') = Some beta /\
  Linkage.gamma (self s') = Some gamma /\
  Linkage.all_points (self s') = Linkage.all_points (self s) /\
  Linkage.ground_contact_point (self s') = Linkage.ground_contact_point (self s) /\
  (forall p v, heap s !! p = Some v -> heap s' !! p = Some v).
Proof.
  intros H.
  destruct (heap s !! Linkage.new_origin (self s)) as [o|] eqn:Ho.
  - destruct (Point.name o) as [oname|] eqn:Hon.
    + destruct (Linkage.name (self s)) as [lname|] eqn:Hln.
      * rewrite (change_pose_returns _ _ _ _ _ _ _ Ho Hon Hln) in H. discriminate.
      * rewrite (change_pose_unnamed_leg _ _ _ _ _ _ Ho Hon Hln) in H.
        injection H as _ <-. repeat split.
        intros p v Hv. apply lookup_app_l_Some, Hv.
    + rewrite (change_pose_unnamed_origin _ _ _ _ _ Ho Hon) in H.
      injection H as _ <-. repeat split.
      intros p v Hv. apply lookup_app_l_Some, Hv.
  - rewrite (change_pose_dangling _ _ _ _ Ho) in H.
    injection H as _ <-. repeat split. intros p v Hv. exact Hv.
Qed.

Lemma change_pose_raise_keeps_points_witness :
  change_pose 10 20 30 nameless_leg
  = (Raise TypeError,
     mkState (heap nameless_leg ++ [renamed mount "mount-body-contact"])
             (with_angles 10 20 30 (self nameless_leg)))
  /\ Linkage.alpha (with_angles 10 20 30 (self nameless_leg)) = Some 10
  /\ Linkage.beta (with_angles 10 20 30 (self nameless_leg)) = Some 20
  /\ Linkage.gamma (with_angles 10 20 30 (self nameless_leg)) = Some 30
  /\ Linkage.all_points (with_angles 10 20 30 (self nameless_leg))
     = Linkage.all_points (self nameless_leg)
  /\ Linkage.ground_contact_point (with_angles 10 20 30 (self nameless_leg))
     = Linkage.ground_contact_point (self nameless_leg)
  /\ (forall p v, heap nameless_leg !! p = Some v ->
                  (heap nameless_leg ++ [renamed mount "mount-body-contact"]) !! p
                  = Some v).
Proof.
  assert (H : change_pose 10 20 30 nameless_leg
              = (Raise TypeError,
                 mkState (heap nameless_leg ++ [renamed mount "mount-body-contact"])
                         (with_angles 10 20 30 (self nameless_leg))))
    by (apply (change_pose_unnamed_leg nameless_leg 10 20 30 mount "mount");
        reflexivity).
  split; [exact H|].
  exact (change_pose_raise_keeps_points nameless_leg 10 20 30 _ _ H).
Defined.

(** ** Forward kinematics in closed form *)

Lemma cosd_neg theta : Frame.cosd (- theta) = Frame.cosd theta.
Proof.
  unfold Frame.cosd. replace (- theta * PI / 180) with (- (theta * PI / 180)) by lra.
  apply cos_neg.
Qed.

Lemma sind_neg theta : Frame.sind (- theta) = - Frame.sind theta.
Proof.
  unfold Frame.sind. replace (- theta * PI / 180) with (- (theta * PI / 180)) by lra.
  apply sin_neg.
Qed.

Lemma cosd_complement theta : Frame.cosd (90 - theta) = Frame.sind theta.
Proof.
  unfold Frame.cosd, Frame.sind.
  replace ((90 - theta) * PI / 180) with (PI / 2 - theta * PI / 180) by lra.
  apply cos_shift.
Qed.

Lemma sind_complement theta : Frame.sind (90 - theta) = Frame.cosd theta.
Proof.
  unfold Frame.cosd, Frame.sind.
  replace ((90 - theta) * PI / 180) with (PI / 2 - theta * PI / 180) by lra.
  apply sin_shift.
Qed.

Lemma cosd_plus x y :
  Frame.cosd (x + y)
  = Frame.cosd x * Frame.cosd y - Frame.sind x * Frame.sind y.
Proof.
  unfold Frame.cosd, Frame.sind.
  replace ((x + y) * PI / 180) with (x * PI / 180 + y * PI / 180) by lra.
  apply cos_plus.
Qed.

Lemma sind_plus x y :
  Frame.sind (x + y)
  = Frame.sind x * Frame.cosd y + Frame.cosd x * Frame.sind y.
Proof.
  unfold Frame.cosd, Frame.sind.
  replace ((x + y) * PI / 180) with (x * PI / 180 + y * PI / 180) by lra.
  apply sin_plus.
Qed.

Lemma pythagoras theta :
  Frame.cosd theta * Frame.cosd theta + Frame.sind theta * Frame.sind theta = 1.
Proof.
  unfold Frame.cosd, Frame.sind.
  pose proof (sin2_cos2 (theta * PI / 180)) as H. unfold Rsqr in H. lra.
Qed.

(** The coordinates of the four objects of a pose, in terms of the
    sines and cosines of [beta], [gamma] and the azimuth. *)
Lemma pose_points_coords l alpha beta gamma o oname lname :
  let ca := Frame.cosd (Linkage.coxia_axis l + alpha) in
  let sa := Frame.sind (Linkage.coxia_axis l + alpha) in
  let cb := Frame.cosd beta in
  let sb := Frame.sind beta in
  let cg := Frame.cosd gamma in
  let sg := Frame.sind gamma in
  let a := Linkage.a l in
  let b := Linkage.b l in
  let c := Linkage.c l in
  map coords_of (pose_points l alpha beta gamma o oname lname)
  = [ (Point.x o, Point.y o, Point.z o);
      (Point.x o + ca * a, Point.y o + sa * a, 0);
      (Point.x o + ca * (a + b * cb), Point.y o + sa * (a + b * cb), b * sb);
      (Point.x o + ca * (a + b * cb + c * (sb * cg + cb * sg)),
       Point.y o + sa * (a + b * cb + c * (sb * cg + cb * sg)),
       b * sb - c * (cb * cg - sb * sg)) ].
Proof.
  cbv zeta. matrices. cbn [map].
  rewrite !cosd_neg, !sind_neg, !cosd_complement, !sind_complement.
  rewrite (cosd_0 0), (sind_0 0) by reflexivity.
  repeat (apply (f_equal2 cons)); try reflexivity; coords_ring.
Qed.

(** X13: the tip in closed form.  After a returning [change_pose], with
    theta = coxia_axis + alpha and r = a + b cos(beta) + c sin(beta +
    gamma), the stored p3 is at (o.x + r cos(theta), o.y + r sin(theta),
    b sin(beta) - c cos(beta + gamma)), where o is the mount point: a
    positive beta raises the femur, and gamma swings the tibia outwards
    from the vertical.  p1 and p2 are the same with r = a, height 0, and
    with r = a + b cos(beta), height b sin(beta). *)
Theorem forward_kinematics s alpha beta gamma s' o :
  change_pose alpha beta gamma s = (Ok tt, s') ->
  heap s !! Linkage.new_origin (self s) = Some o ->
  let l := self s in
  let theta := Linkage.coxia_axis l + alpha in
  let r1 := Linkage.a l in
  let r2 := Linkage.a l + Linkage.b l * Frame.cosd beta in
  let r3 := Linkage.a l + Linkage.b l * Frame.cosd beta
            + Linkage.c l * Frame.sind (beta + gamma) in
  stored_coords s'
  = Some [ (Point.x o, Point.y o, Point.z o);
           (Point.x o + r1 * Frame.cosd theta, Point.y o + r1 * Frame.sind theta, 0);
           (Point.x o + r2 * Frame.cosd theta, Point.y o + r2 * Frame.sind theta,
            Linkage.b l * Frame.sind beta);
           (Point.x o + r3 * Frame.cosd theta, Point.y o + r3 * Frame.sind theta,
            Linkage.b l * Frame.sind beta
            - Linkage.c l * Frame.cosd (beta + gamma)) ].
Proof.
  intros H Ho. cbv zeta.
  apply change_pose_inv in H as (o' & oname & lname & Ho' & _ & _ & ->).
  assert (o' = o) as -> by congruence.
  unfold stored_coords. rewrite posed_stored. cbn [option_map].
  rewrite pose_points_coords. rewrite (cosd_plus beta gamma), (sind_plus beta gamma).
  f_equal. repeat (apply (f_equal2 cons)); try reflexivity; coords_ring.
Qed.

Lemma forward_kinematics_witness :
  change_pose 0 0 0 (blank_leg mount) = (Ok tt, neutral_leg)
  /\ heap (blank_leg mount) !! Linkage.new_origin (self (blank_leg mount))
     = Some mount
  /\ stored_coords neutral_leg
     = Some [ (0, 0, 0);
              (0 + 1 * Frame.cosd (0 + 0), 0 + 1 * Frame.sind (0 + 0), 0);
              (0 + (1 + 1 * Frame.cosd 0) * Frame.cosd (0 + 0),
               0 + (1 + 1 * Frame.cosd 0) * Frame.sind (0 + 0),
               1 * Frame.sind 0);
              (0 + (1 + 1 * Frame.cosd 0 + 1 * Frame.sind (0 + 0)) * Frame.cosd (0 + 0),
               0 + (1 + 1 * Frame.cosd 0 + 1 * Frame.sind (0 + 0)) * Frame.sind (0 + 0),
               1 * Frame.sind 0 - 1 * Frame.cosd (0 + 0)) ].
Proof.
  split; [exact neutral_leg_posed|]. split; [reflexivity|].
  exact (forward_kinematics (blank_leg mount) 0 0 0 neutral_leg mount
           neutral_leg_posed eq_refl).
Defined.

(** X14: the pose keeps the segment lengths.  After a returning
    [change_pose] the distance from p1 to p2 is b and from p2 to p3 is c,
    for all angles; the distance from p0 to p1 is a when the mount point
    is at height 0 (in general its square is a^2 + o.z^2, as p1 is always
    at height 0). *)
Theorem segment_lengths s alpha beta gamma s' o :
  change_pose alpha beta gamma s = (Ok tt, s') ->
  heap s !! Linkage.new_origin (self s) = Some o ->
  exists c0 c1 c2 c3,
    stored_coords s' = Some [c0; c1; c2; c3] /\
    dist2 c0 c1 = Linkage.a (self s) * Linkage.a (self s) + Point.z o * Point.z o /\
    dist2 c1 c2 = Linkage.b (self s) * Linkage.b (self s) /\
    dist2 c2 c3 = Linkage.c (self s) * Linkage.c (self s).
Proof.
  intros H Ho.
  apply change_pose_inv in H as (o' & oname & lname & Ho' & _ & _ & ->).
  assert (o' = o) as -> by congruence.
  unfold stored_coords. rewrite posed_stored. cbn [option_map].
  rewrite pose_points_coords. cbv zeta.
  pose proof (pythagoras (Linkage.coxia_axis (self s) + alpha)) as Ha.
  pose proof (pythagoras beta) as Hb.
  pose proof (pythagoras gamma) as Hg.
  revert Ha Hb Hg.
  generalize (Frame.cosd (Linkage.coxia_axis (self s) + alpha)),
             (Frame.sind (Linkage.coxia_axis (self s) + alpha)),
             (Frame.cosd beta), (Frame.sind beta),
             (Frame.cosd gamma), (Frame.sind gamma),
             (Linkage.a (self s)), (Linkage.b (self s)), (Linkage.c (self s)),
             (Point.x o), (Point.y o), (Point.z o).
  intros ca sa cb sb cg sg a b c ox oy oz Ha Hb Hg.
  eexists _, _, _, _. split; [reflexivity|]. unfold dist2.
  split; [|split].
  - transitivity (a * a * (ca * ca + sa * sa) + oz * oz); [ring|].
    rewrite Ha. ring.
  - transitivity (b * b * (cb * cb * (ca * ca + sa * sa) + sb * sb)); [ring|].
    rewrite Ha. transitivity (b * b * (cb * cb + sb * sb)); [ring|].
    rewrite Hb. ring.
  - transitivity (c * c * ((sb * cg + cb * sg) * (sb * cg + cb * sg)
                             * (ca * ca + sa * sa)
                           + (cb * cg - sb * sg) * (cb * cg - sb * sg))); [ring|].
    rewrite Ha.
    transitivity (c * c * ((cb * cb + sb * sb) * (cg * cg + sg * sg))); [ring|].
    rewrite Hb, Hg. ring.
Qed.

Lemma segment_lengths_witness :
  change_pose 0 0 90 (blank_leg mount) = (Ok tt, flat_leg)
  /\ heap (blank_leg mount) !! Linkage.new_origin (self (blank_leg mount))
     = Some mount
  /\ exists c0 c1 c2 c3,
       stored_coords flat_leg = Some [c0; c1; c2; c3] /\
       dist2 c0 c1 = 1 * 1 + 0 * 0 /\
       dist2 c1 c2 = 1 * 1 /\
       dist2 c2 c3 = 1 * 1.
Proof.
  split; [exact flat_leg_posed|]. split; [reflexivity|].
  exact (segment_lengths (blank_leg mount) 0 0 90 flat_leg mount
           flat_leg_posed eq_refl).
Defined.

(** ** When the tip is the ground contact *)

(** X15: after a returning [change_pose] the ground contact is the tip
    p3 exactly when no stored point is strictly below the tip. *)
Theorem ground_contact_is_tip s alpha beta gamma s' :
  change_pose alpha beta gamma s = (Ok tt, s') ->
  exists ps tip g,
    Linkage.all_points (self s') = Some ps /\
    ps !! 3%nat = Some tip /\
    Linkage.ground_contact_point (self s') = Some g /\
    (g = tip <->
     forall p, p ∈ ps -> height (heap s') tip <= height (heap s') p).
Proof.
  intros H. apply change_pose_inv in H as (o & oname & lname & _ & _ & _ & ->).
  destruct (posed_ground_contact s alpha beta gamma o oname lname)
    as (ps & g & k & Hps & Hg & Hk & _ & Hle & Hlt).
  pose proof Hps as Hps'. rewrite posed_all_points in Hps'. injection Hps' as <-.
  eexists _, _, g. split; [exact Hps|]. split; [reflexivity|].
  split; [exact Hg|]. split.
  - intros Heq p Hp. pose proof (Hle p Hp) as H. rewrite Heq in H. exact H.
  - intros Htip.
    destruct (decide (k < 3)%nat) as [Hk3|Hk3].
    + specialize (Hlt 3%nat _ eq_refl Hk3).
      assert (Hin : g ∈ [length (heap s); S (length (heap s));
                         S (S (length (heap s))); S (S (S (length (heap s))))])
        by (eapply list_elem_of_lookup_2, Hk).
      specialize (Htip g Hin). lra.
    + pose proof (lookup_lt_Some _ _ _ Hk) as Hk4. cbn in Hk4.
      assert (k = 3%nat) as -> by lia.
      cbn in Hk. congruence.
Qed.

Lemma ground_contact_is_tip_witness :
  change_pose 0 0 90 (blank_leg mount) = (Ok tt, flat_leg)
  /\ exists ps tip g,
       Linkage.all_points (self flat_leg) = Some ps /\
       ps !! 3%nat = Some tip /\
       Linkage.ground_contact_point (self flat_leg) = Some g /\
       (g = tip <->
        forall p, p ∈ ps -> height (heap flat_leg) tip <= height (heap flat_leg) p).
Proof.
  split; [exact flat_leg_posed|].
  exact (ground_contact_is_tip (blank_leg mount) 0 0 90 flat_leg flat_leg_posed).
Defined.

(** ** Assignment to p0 .. p3 *)

(** X16: [test_set_leg_point] holds on every constructed leg, for every
    point and each of p0 .. p3: after [leg.key = Point(...)], reading
    [leg.key] gives a point equal to the one assigned, and so does the
    entry of [all_points]. *)
Theorem set_then_get_reads_back s key i v :
  reachable s ->
  (key, i) ∈ [("p0", 0%nat); ("p1", 1%nat); ("p2", 2%nat); ("p3", 3%nat)] ->
  exists s' ps q,
    set_then_get key v s = (Ok v, s') /\
    Linkage.all_points (self s') = Some ps /\
    ps !! i = Some q /\
    heap s' !! q = Some v.
Proof.
  intros Hr Hkey.
  destruct (reachable_well_formed s Hr) as (ps & g & o & Hps & Hlen & _).
  assert (Hi : attr_map !! key = Some i /\ (i < 4)%nat).
  { rewrite !elem_of_cons, elem_of_nil in Hkey.
    destruct Hkey as [[= -> ->]|[[= -> ->]|[[= -> ->]|[[= -> ->]|[]]]]];
      (split; [reflexivity | lia]). }
  destruct Hi as [Hi Hlt].
  set (q := length (heap s)).
  set (s1 := mkState (heap s ++ [v]) (self s)).
  set (s2 := mkState (heap s ++ [v])
               (Linkage.set_all_points (<[i := q]> ps) (self s))).
  assert (Hq : <[i := q]> ps !! i = Some q)
    by (apply list_lookup_insert_eq; lia).
  assert (Hv : heap s2 !! q = Some v) by (apply list_lookup_middle; reflexivity).
  exists s2, (<[i := q]> ps), q.
  split; [|split; [reflexivity | split; [exact Hq | exact Hv]]].
  unfold set_then_get.
  rewrite (bind_ok (alloc v) _ s q s1 eq_refl).
  rewrite (bind_ok (__setattr__ key q) _ s1 tt s2)
    by (apply (assign_point s1 ps); [exact Hps | exact Hi | lia]).
  rewrite (bind_ok (__getattr__ key) _ s2 q s2)
    by (apply (getattr_point s2 (<[i := q]> ps) key i);
        [reflexivity | exact Hi | exact Hq]).
  apply deref_ok, Hv.
Qed.

Lemma set_then_get_reads_back_witness :
  reachable neutral_leg
  /\ ("p0", 0%nat) ∈ [("p0", 0%nat); ("p1", 1%nat); ("p2", 2%nat); ("p3", 3%nat)]
  /\ exists s' ps q,
       set_then_get "p0" (Point.mk 1 2 3 (Some "b")) neutral_leg
       = (Ok (Point.mk 1 2 3 (Some "b")), s') /\
       Linkage.all_points (self s') = Some ps /\
       ps !! 0%nat = Some q /\
       heap s' !! q = Some (Point.mk 1 2 3 (Some "b")).
Proof.
  split; [exact neutral_leg_reachable|]. split; [apply list_elem_of_here|].
  exact (set_then_get_reads_back neutral_leg "p0" 0%nat (Point.mk 1 2 3 (Some "b"))
           neutral_leg_reachable (list_elem_of_here _ _)).
Defined.

(** X17: Python lists do not grow on assignment: when the point set has
    no entry [i], both [leg.p_i = q] and reading [leg.p_i] raise
    [IndexError] and leave the leg as it is. *)
Theorem point_out_of_range s ps key i q :
  Linkage.all_points (self s) = Some ps ->
  attr_map !! key = Some i ->
  (length ps <= i)%nat ->
  __setattr__ key q s = (Raise IndexError, s) /\
  __getattr__ key s = (Raise IndexError, s).
Proof.
  intros Hps Hkey Hi.
  unfold __setattr__, __getattr__. rewrite Hkey.
  unfold bind, slot. rewrite Hps.
  rewrite (lookup_ge_None_2 ps i) by lia. split; reflexivity.
Qed.

Lemma point_out_of_range_witness :
  Linkage.all_points (self short_leg) = Some [1; 2; 3]%nat
  /\ attr_map !! "p3" = Some 3%nat
  /\ (length [1; 2; 3]%nat <= 3)%nat
  /\ __setattr__ "p3" 0%nat short_leg = (Raise IndexError, short_leg)
  /\ __getattr__ "p3" short_leg = (Raise IndexError, short_leg).
Proof.
  split; [reflexivity|]. split; [reflexivity|]. split; [cbn; lia|].
  exact (point_out_of_range short_leg [1; 2; 3]%nat "p3" 3%nat 0%nat
           eq_refl eq_refl ltac:(cbn; lia)).
Defined.

(** X18: an assignment to one of p0 .. p3 changes that entry of the
    point set only: every other point reads as before, as do the ground
    contact and the coxia angle, and no object is changed - the stored
    angles are not brought in line with the new point. *)
Theorem assignment_changes_one_entry s key key' q :
  reachable s ->
  key ∈ point_keys ->
  key' ∈ point_keys ->
  key' <> key ->
  exists s',
    __setattr__ key q s = (Ok tt, s') /\
    heap s' = heap s /\
    fst (__getattr__ key' s') = fst (__getattr__ key' s) /\
    fst (ground_contact s') = fst (ground_contact s) /\
    fst (coxia_angle s') = fst (coxia_angle s).
Proof.
  intros Hr Hkey Hkey' Hne.
  destruct (reachable_well_formed s Hr) as (ps & g & o & Hps & Hlen & _).
  destruct (point_keys_attr_map key Hkey) as (i & Hi & Hi4).
  destruct (point_keys_attr_map key' Hkey') as (j & Hj & Hj4).
  assert (Hij : i <> j).
  { intros ->. apply Hne.
    unfold point_keys in Hkey, Hkey'. rewrite !elem_of_cons, elem_of_nil in Hkey, Hkey'.
    destruct Hkey as [->|[->|[->|[->|[]]]]], Hkey' as [->|[->|[->|[->|[]]]]];
      try reflexivity; vm_compute in Hi, Hj; congruence. }
  eexists. split; [apply (assign_point s ps key i q Hps Hi); lia|].
  split; [reflexivity|]. split; [|split].
  2: { unfold ground_contact, slot.
       cbn [self Linkage.set_all_points Linkage.ground_contact_point].
       destruct (Linkage.ground_contact_point (self s)); reflexivity. }
  2: { unfold coxia_angle, slot.
       cbn [self Linkage.set_all_points Linkage.alpha].
       destruct (Linkage.alpha (self s)); reflexivity. }
  destruct (lookup_lt_is_Some_2 ps j ltac:(lia)) as [p Hp].
  rewrite (getattr_point s ps key' j p Hps Hj Hp).
  erewrite getattr_point; [reflexivity | reflexivity | exact Hj |].
  rewrite list_lookup_insert_ne by assumption. exact Hp.
Qed.

Lemma assignment_changes_one_entry_witness :
  reachable neutral_leg
  /\ "p0" ∈ point_keys
  /\ "p3" ∈ point_keys
  /\ "p3" <> "p0"
  /\ exists s',
       __setattr__ "p0" 0%nat neutral_leg = (Ok tt, s') /\
       heap s' = heap neutral_leg /\
       fst (__getattr__ "p3" s') = fst (__getattr__ "p3" neutral_leg) /\
       fst (ground_contact s') = fst (ground_contact neutral_leg) /\
       fst (coxia_angle s') = fst (coxia_angle neutral_leg).
Proof.
  assert (H0 : "p0" ∈ point_keys) by apply list_elem_of_here.
  assert (H3 : "p3" ∈ point_keys)
    by (unfold point_keys; rewrite !elem_of_cons; tauto).
  assert (Hne : "p3" <> "p0") by discriminate.
  split; [exact neutral_leg_reachable|]. split; [exact H0|]. split; [exact H3|].
  split; [exact Hne|].
  exact (assignment_changes_one_entry neutral_leg "p0" "p3" 0%nat
           neutral_leg_reachable H0 H3 Hne).
Defined.

(** ** The azimuth does not change heights *)

Lemma height_ext h1 h2 :
  map Point.z h1 = map Point.z h2 -> forall p, height h1 p = height h2 p.
Proof.
  intros Hz p. unfold height.
  pose proof (f_equal (fun l => l !! p) Hz) as H. cbn in H.
  change (map Point.z h1) with (Point.z <$> h1) in H.
  change (map Point.z h2) with (Point.z <$> h2) in H.
  rewrite !list_lookup_fmap in H.
  destruct (h1 !! p), (h2 !! p); cbn in H; congruence.
Qed.

Lemma lowest_ext h1 h2 points g :
  (forall p, height h1 p = height h2 p) ->
  lowest h1 points g = lowest h2 points g.
Proof.
  intros Hh. revert g. induction points as [|p rest IH]; intros g; [reflexivity|].
  rewrite !lowest_cons, !Hh. apply IH.
Qed.

Lemma pose_points_heights l alpha beta gamma o oname lname :
  map Point.z (pose_points l alpha beta gamma o oname lname)
  = [ Point.z o; 0; Linkage.b l * Frame.sind beta;
      Linkage.b l * Frame.sind beta
      - Linkage.c l * (Frame.cosd beta * Frame.cosd gamma
                       - Frame.sind beta * Frame.sind gamma) ].
Proof.
  pose proof (f_equal (map (fun c : Spec.coords => snd c))
                (pose_points_coords l alpha beta gamma o oname lname)) as H.
  cbv zeta in H. rewrite map_map in H. exact H.
Qed.

(** X19: the azimuth angle [alpha] turns the leg about the vertical
    only: posing a leg with another [alpha] and the same [beta] and
    [gamma] gives the same heights of p0 .. p3 and the ground contact at
    the same position of the point set. *)
Theorem azimuth_keeps_heights s alpha alpha' beta gamma s1 s2 :
  change_pose alpha beta gamma s = (Ok tt, s1) ->
  change_pose alpha' beta gamma s = (Ok tt, s2) ->
  option_map (map Point.z) (stored_points s1)
  = option_map (map Point.z) (stored_points s2) /\
  view_ground_contact_index (observe s1) = view_ground_contact_index (observe s2).
Proof.
  intros H1 H2.
  apply change_pose_inv in H1 as (o & oname & lname & Ho & Hon & Hln & ->).
  apply change_pose_inv in H2 as (o' & oname' & lname' & Ho' & Hon' & Hln' & ->).
  assert (o' = o) as -> by congruence.
  assert (Hz : map Point.z (pose_points (self s) alpha beta gamma o oname lname)
               = map Point.z (pose_points (self s) alpha' beta gamma o oname' lname'))
    by (rewrite !pose_points_heights; reflexivity).
  split.
  - rewrite !posed_stored. cbn [option_map]. rewrite Hz. reflexivity.
  - rewrite !observe_posed by assumption. cbn [view_ground_contact_index].
    rewrite (lowest_ext _ _ _ _ (height_ext _ _ Hz)). reflexivity.
Qed.

Lemma azimuth_keeps_heights_witness :
  change_pose 0 0 0 (blank_leg mount) = (Ok tt, neutral_leg)
  /\ change_pose 90 0 0 (blank_leg mount)
     = (Ok tt, posed (blank_leg mount) 90 0 0 mount "mount" "leg")
  /\ option_map (map Point.z) (stored_points neutral_leg)
     = option_map (map Point.z)
         (stored_points (posed (blank_leg mount) 90 0 0 mount "mount" "leg"))
  /\ view_ground_contact_index (observe neutral_leg)
     = view_ground_contact_index
         (observe (posed (blank_leg mount) 90 0 0 mount "mount" "leg")).
Proof.
  assert (H : change_pose 90 0 0 (blank_leg mount)
              = (Ok tt, posed (blank_leg mount) 90 0 0 mount "mount" "leg"))
    by (apply change_pose_returns; reflexivity).
  split; [exact neutral_leg_posed|]. split; [exact H|].
  exact (azimuth_keeps_heights (blank_leg mount) 0 90 0 0 _ _ neutral_leg_posed H).
Defined.
